(** * Opinion tracking of the rollup validator

    A shallow embedding of [packages/arb-validator/rollup/opinion.go]:
    the [preparedAssertion] value object and its [Clone], the closure
    [updateCurrent] and the select loop of [startOpinionUpdateThread],
    [prepareAssertion] and [getNodeOpinion].

    Go objects that the file mutates, or copies by reference, live in a
    store and are named by locations: machines, execution assertions,
    nodes, prepared assertions and the objects a prepared assertion points
    to.  Objects that the file only reads (the protocol data and the posted
    parameters and claim of a node, message stacks, the inbox) are values.
    A nil or dangling pointer that is dereferenced is a panic.  The
    embedding follows one goroutine at a time: the reader/writer lock of
    the chain observer is not part of the state. *)

From stdpp Require Import gmap.

(** ** Plain data *)

(** [[32]byte], read as a number; [zeroBytes32] is the all-zero array. *)
Definition Hash := N.
Definition zeroBytes32 : Hash := 0%N.

(** Addresses of heap objects. *)
Definition loc := positive.

(** Modelled from the spec: [structures.ChildType] is declared outside this
    file; the spec gives its four variants and their order as array index
    0..3. *)
Inductive ChildType :=
| ValidChildType
| InvalidPendingChildType
| InvalidMessagesChildType
| InvalidExecutionChildType.

#[global] Instance ChildType_eq_dec : EqDecision ChildType.
Proof. solve_decision. Defined.

(** The indices of a [[4][32]byte] array in the order [range] visits them. *)
Definition childTypes : list ChildType :=
  [ValidChildType; InvalidPendingChildType;
   InvalidMessagesChildType; InvalidExecutionChildType].

(** Modelled from the spec: time bounds are a pair (lowerTick, upperTick). *)
Definition TimeBounds := (Z * Z)%type.

(** Modelled from the spec: [structures.AssertionParams]. *)
Record AssertionParams := {
  NumSteps : N;
  ParamsTimeBounds : TimeBounds;
  ImportedMessageCount : Z
}.

#[global] Instance AssertionParams_eq_dec : EqDecision AssertionParams.
Proof. solve_decision. Defined.

(** Modelled from the spec: [structures.VMProtoData], of which this file
    reads the pending-inbox top hash and the pending count. *)
Record VMProtoData := {
  PendingTop : Hash;
  PendingCount : Z
}.

(** ** The collaborators

    The machine, the pending inbox, message stacks and execution
    assertions are declared in other packages.  Their operations are the
    fields of a class; a machine is its state, and [ExecuteAssertion], which
    in Go advances the machine it is called on, returns the state after the
    run next to the assertion and the number of steps run. *)
Class Collaborators := {
  Machine : Type;
  TupleValue : Type;
  MessageStack : Type;
  PendingInbox : Type;
  ExecutionAssertion : Type;
  AssertionStub : Type;
  AssertionStub_eq_dec :: EqDecision AssertionStub;
  (* machine.Machine *)
  ExecuteAssertion :
    Machine -> N -> TimeBounds -> TupleValue -> Machine * ExecutionAssertion * N;
  IsMachineBlocked : Machine -> Z -> bool -> bool;
  (* protocol.ExecutionAssertion *)
  DidInboxInsn : ExecutionAssertion -> bool;
  Stub : ExecutionAssertion -> AssertionStub;
  (* structures.MessageStack *)
  TopCount : MessageStack -> Z;
  MessageStack_GetTopHash : MessageStack -> Hash;
  (* structures.PendingInbox *)
  GetHeight : PendingInbox -> Hash -> option Z;
  Substack : PendingInbox -> Hash -> Hash -> MessageStack;
  ValueForSubseq : PendingInbox -> Hash -> Hash -> TupleValue;
  GetTopHash : PendingInbox -> Hash;
  (* value.NewEmptyTuple().Hash() *)
  emptyTupleHash : Hash;
  (* ChainObserver.currentTimeBounds, from the latest block number *)
  currentTimeBounds : Z -> TimeBounds
}.

(** ** Computations: state passing with panics *)

Inductive Res (A : Type) :=
| Ok (a : A)
| Panic.
Arguments Ok {A} a.
Arguments Panic {A}.

Definition M (S A : Type) := S -> Res (A * S).

Definition ret {S A} (a : A) : M S A := fun s => Ok (a, s).
Definition bind {S A B} (m : M S A) (k : A -> M S B) : M S B :=
  fun s => match m s with
           | Ok (a, s') => k a s'
           | Panic => Panic
           end.
Definition panic {S A} : M S A := fun _ => Panic.
Definition get {S} : M S S := fun s => Ok (s, s).
Definition modify {S} (f : S -> S) : M S unit := fun s => Ok (tt, f s).

Notation "x <- m ;; k" := (bind m (fun x => k))
  (at level 90, m at next level, right associativity).
Notation "m ;;; k" := (bind m (fun _ => k))
  (at level 90, right associativity).

(** Dereference of a pointer that may be nil. *)
Definition nonnil {S A} (o : option A) : M S A :=
  match o with
  | Some a => ret a
  | None => panic
  end.

Section Model.
Context `{!Collaborators}.

(** Modelled from the spec: [structures.AssertionClaim]. *)
Record AssertionClaim := {
  AfterPendingTop : Hash;
  ImportedMessagesSlice : Hash;
  ClaimAssertionStub : AssertionStub
}.

#[global] Instance AssertionClaim_eq_dec : EqDecision AssertionClaim.
Proof. solve_decision. Defined.

(** Modelled from the spec: [AssertionParams.Equals], [AssertionClaim.Equals]
    and [AssertionStub.Equals] are declared outside this file; the spec has
    them as exact equality. *)
Definition AssertionParams_Equals (a b : AssertionParams) : bool :=
  bool_decide (a = b).
Definition AssertionClaim_Equals (a b : AssertionClaim) : bool :=
  bool_decide (a = b).
Definition AssertionStub_Equals (a b : AssertionStub) : bool :=
  bool_decide (a = b).

(** The posted parameters and claim of a node ([node.disputable]). *)
Record DisputableNode := {
  DisputableParams : AssertionParams;
  DisputableClaim : AssertionClaim
}.

(** The fields of [Node] that this file reads or writes.  [machine] and
    [assertion] are pointers, nil until set. *)
Record Node := {
  hash : Hash;
  prevHash : Hash;
  nodeDataHash : Hash;
  deadline : Z;
  linkType : ChildType;
  vmProtoData : VMProtoData;
  disputable : option DisputableNode;
  machine : option loc;
  assertion : option loc;
  assertionTxHash : Hash;
  successorHashes : ChildType -> Hash
}.

(** [preparedAssertion], lines 32-44.  [prevDeadline] is the [*big.Int]
    inside [structures.TimeTicks]; the last five fields are pointers. *)
Record preparedAssertion := {
  leafHash : Hash;
  prevPrevLeafHash : Hash;
  prevDataHash : Hash;
  prevDeadline : loc;
  prevChildType : ChildType;
  beforeState : loc;
  params : loc;
  claim : loc;
  pa_assertion : loc;
  pa_machine : loc
}.

(** ** The store *)

Record Heap := {
  bigInts : gmap loc Z;
  protoDatas : gmap loc VMProtoData;
  paramsCells : gmap loc AssertionParams;
  claimCells : gmap loc AssertionClaim;
  assertions : gmap loc ExecutionAssertion;
  machines : gmap loc Machine;
  prepared : gmap loc preparedAssertion;
  nodes : gmap loc Node
}.

(** The fields of [ChainObserver] that this file uses. *)
Record ChainObserver := {
  knownValidNode : loc;
  nodeFromHash : gmap Hash loc;        (* chain.nodeGraph.nodeFromHash *)
  leaves : gset Hash;                  (* chain.nodeGraph.leaves *)
  MaxExecutionSteps : N;               (* chain.nodeGraph.params *)
  pendingInbox : PendingInbox;
  latestBlockNumber : Z;
  listeners : list nat
}.

(** The variables of the goroutine of [startOpinionUpdateThread],
    lines 64-66, and the builds started and not yet run. *)
Record Locals := {
  assertionPreparedChan : list (option loc);
  preparingAssertions : gmap Hash bool;
  preparedAssertions : gmap Hash loc;
  startedBuilds : nat
}.

(** Calls made on the listeners, oldest first. *)
Inductive Event :=
| AdvancedKnownAssertion (lis : nat) (a : option loc) (txHash : Hash)
| AdvancedKnownValidNode (lis : nat) (h : Hash)
| AssertionPrepared (lis : nat) (p : loc).

Record State := {
  heap : Heap;
  chain : ChainObserver;
  locals : Locals;
  events : list Event
}.

Definition set_heap (f : Heap -> Heap) (s : State) : State :=
  {| heap := f (heap s); chain := chain s; locals := locals s;
     events := events s |}.
Definition set_chain (f : ChainObserver -> ChainObserver) (s : State) : State :=
  {| heap := heap s; chain := f (chain s); locals := locals s;
     events := events s |}.
Definition set_locals (f : Locals -> Locals) (s : State) : State :=
  {| heap := heap s; chain := chain s; locals := f (locals s);
     events := events s |}.
Definition set_events (f : list Event -> list Event) (s : State) : State :=
  {| heap := heap s; chain := chain s; locals := locals s;
     events := f (events s) |}.

(** One typed region of the heap. *)
Record Region (T : Type) := {
  cells : Heap -> gmap loc T;
  with_cells : gmap loc T -> Heap -> Heap
}.
Arguments cells {T} _ _.
Arguments with_cells {T} _ _ _.

Definition bigIntR : Region Z :=
  {| cells := bigInts;
     with_cells m h :=
       {| bigInts := m; protoDatas := protoDatas h;
          paramsCells := paramsCells h; claimCells := claimCells h;
          assertions := assertions h; machines := machines h;
          prepared := prepared h; nodes := nodes h |} |}.
Definition protoDataR : Region VMProtoData :=
  {| cells := protoDatas;
     with_cells m h :=
       {| bigInts := bigInts h; protoDatas := m;
          paramsCells := paramsCells h; claimCells := claimCells h;
          assertions := assertions h; machines := machines h;
          prepared := prepared h; nodes := nodes h |} |}.
Definition paramsR : Region AssertionParams :=
  {| cells := paramsCells;
     with_cells m h :=
       {| bigInts := bigInts h; protoDatas := protoDatas h;
          paramsCells := m; claimCells := claimCells h;
          assertions := assertions h; machines := machines h;
          prepared := prepared h; nodes := nodes h |} |}.
Definition claimR : Region AssertionClaim :=
  {| cells := claimCells;
     with_cells m h :=
       {| bigInts := bigInts h; protoDatas := protoDatas h;
          paramsCells := paramsCells h; claimCells := m;
          assertions := assertions h; machines := machines h;
          prepared := prepared h; nodes := nodes h |} |}.
Definition assertionR : Region ExecutionAssertion :=
  {| cells := assertions;
     with_cells m h :=
       {| bigInts := bigInts h; protoDatas := protoDatas h;
          paramsCells := paramsCells h; claimCells := claimCells h;
          assertions := m; machines := machines h;
          prepared := prepared h; nodes := nodes h |} |}.
Definition machineR : Region Machine :=
  {| cells := machines;
     with_cells m h :=
       {| bigInts := bigInts h; protoDatas := protoDatas h;
          paramsCells := paramsCells h; claimCells := claimCells h;
          assertions := assertions h; machines := m;
          prepared := prepared h; nodes := nodes h |} |}.
Definition preparedR : Region preparedAssertion :=
  {| cells := prepared;
     with_cells m h :=
       {| bigInts := bigInts h; protoDatas := protoDatas h;
          paramsCells := paramsCells h; claimCells := claimCells h;
          assertions := assertions h; machines := machines h;
          prepared := m; nodes := nodes h |} |}.
Definition nodeR : Region Node :=
  {| cells := nodes;
     with_cells m h :=
       {| bigInts := bigInts h; protoDatas := protoDatas h;
          paramsCells := paramsCells h; claimCells := claimCells h;
          assertions := assertions h; machines := machines h;
          prepared := prepared h; nodes := m |} |}.

(** ** Heap operations *)

(** [*p] *)
Definition deref {T} (R : Region T) (l : loc) : M State T :=
  s <- get ;; nonnil (cells R (heap s) !! l).

(** [&T{...}] and [new(T)]: a cell at an address not in use. *)
Definition alloc {T} (R : Region T) (v : T) : M State loc :=
  s <- get ;;
  let l := fresh (dom (cells R (heap s))) in
  modify (set_heap (fun h => with_cells R (<[l := v]> (cells R h)) h)) ;;;
  ret l.

(** [*p = v] *)
Definition assign {T} (R : Region T) (l : loc) (v : T) : M State unit :=
  _ <- deref R l ;;
  modify (set_heap (fun h => with_cells R (<[l := v]> (cells R h)) h)).

(** [mach.Clone()]: an independent copy of the machine. *)
Definition Machine_Clone (mach : loc) : M State loc :=
  m <- deref machineR mach ;; alloc machineR m.

(** [mach.ExecuteAssertion(maxSteps, timeBounds, messages)]: advances the
    machine at [mach] and returns a new assertion and the steps run. *)
Definition Machine_ExecuteAssertion
    (mach : loc) (maxSteps : N) (tb : TimeBounds) (messages : TupleValue)
  : M State (loc * N) :=
  m <- deref machineR mach ;;
  let '(m', a, stepsRun) := ExecuteAssertion m maxSteps tb messages in
  assign machineR mach m' ;;;
  assertion <- alloc assertionR a ;;
  ret (assertion, stepsRun).

(** The state once the machine at [mach] has run to [m'] and the assertion
    [a] of the run has been allocated. *)
Definition afterRun (s : State) (mach : loc) (m' : Machine)
    (a : ExecutionAssertion) : State :=
  set_heap (fun h =>
    with_cells assertionR (<[fresh (dom (assertions h)) := a]> (assertions h))
      (with_cells machineR (<[mach := m']> (machines h)) h)) s.

(** ** [getNodeOpinion], lines 241-265

    [params] and [claim] are only read and are passed as values;
    [claimHeight] is nil-checked by the code and is an option. *)
Definition getNodeOpinion
    (params : AssertionParams) (claim : AssertionClaim)
    (prevPendingCount : Z) (claimHeight : option Z)
    (messageStack : MessageStack) (messagesVal : TupleValue)
    (prevMach : loc)
  : M State (ChildType * option loc) :=
  let correctAfterPendingTopHeight :=
    (prevPendingCount + ImportedMessageCount params)%Z in
  if match claimHeight with
     | None => true
     | Some h => negb (correctAfterPendingTopHeight =? h)%Z
     end
  then ret (InvalidPendingChildType, None)
  else if negb (MessageStack_GetTopHash messageStack
                =? ImportedMessagesSlice claim)%N
  then ret (InvalidMessagesChildType, None)
  else
    let mach := prevMach in
    run <-
      Machine_ExecuteAssertion mach (NumSteps params)
        (ParamsTimeBounds params) messagesVal ;;
    let '(assertion, stepsRun) := run in
    mismatch <-
      (if negb (NumSteps params =? stepsRun)%N then ret true
       else
         a <- deref assertionR assertion ;;
         ret (negb (AssertionStub_Equals (ClaimAssertionStub claim) (Stub a)))) ;;
    if mismatch then ret (InvalidExecutionChildType, None)
    else ret (ValidChildType, Some assertion).

(** The three checks of the classifier, in the words of the specification:
    the claimed height is absent or is not the prior pending count plus the
    imported message count; the hash of the message range is not the
    claimed slice; the replay of a machine in state [m] does not run the
    claimed number of steps or does not produce the claimed stub. *)
Definition height_violated
    (params : AssertionParams) (prevPendingCount : Z) (claimHeight : option Z)
  : Prop :=
  claimHeight = None \/
  exists h, claimHeight = Some h /\
            (prevPendingCount + ImportedMessageCount params)%Z <> h.
Definition messages_violated
    (claim : AssertionClaim) (messageStack : MessageStack) : Prop :=
  MessageStack_GetTopHash messageStack <> ImportedMessagesSlice claim.
Definition execution_violated
    (params : AssertionParams) (claim : AssertionClaim)
    (messagesVal : TupleValue) (m : Machine) : Prop :=
  let '(_, a, stepsRun) :=
    ExecuteAssertion m (NumSteps params) (ParamsTimeBounds params) messagesVal in
  stepsRun <> NumSteps params \/ Stub a <> ClaimAssertionStub claim.

(** ** [preparedAssertion.Clone], lines 46-59 *)

(** Modelled from the spec: [VMProtoData.Clone], [AssertionParams.Clone] and
    [AssertionClaim.Clone] are declared outside this file; the spec has
    them as deep copies. *)
Definition VMProtoData_Clone (p : loc) : M State loc :=
  v <- deref protoDataR p ;; alloc protoDataR v.
Definition AssertionParams_Clone (p : loc) : M State loc :=
  v <- deref paramsR p ;; alloc paramsR v.
Definition AssertionClaim_Clone (p : loc) : M State loc :=
  v <- deref claimR p ;; alloc claimR v.

Definition Clone (pa : loc) : M State loc :=
  p <- deref preparedR pa ;;
  val <- deref bigIntR (prevDeadline p) ;;
  prevDeadline' <- alloc bigIntR val ;;
  beforeState' <- VMProtoData_Clone (beforeState p) ;;
  params' <- AssertionParams_Clone (params p) ;;
  claim' <- AssertionClaim_Clone (claim p) ;;
  alloc preparedR
    {| leafHash := leafHash p;
       prevPrevLeafHash := prevPrevLeafHash p;
       prevDataHash := prevDataHash p;
       prevDeadline := prevDeadline';
       prevChildType := prevChildType p;
       beforeState := beforeState';
       params := params';
       claim := claim';
       pa_assertion := pa_assertion p;
       pa_machine := pa_machine p |}.

(** What a prepared assertion holds, all pointers followed.  The assertion
    and the machine may be nil or dangling: [Clone] does not follow them. *)
Record preparedValue := {
  v_leafHash : Hash;
  v_prevPrevLeafHash : Hash;
  v_prevDataHash : Hash;
  v_prevDeadline : Z;
  v_prevChildType : ChildType;
  v_beforeState : VMProtoData;
  v_params : AssertionParams;
  v_claim : AssertionClaim;
  v_assertion : option ExecutionAssertion;
  v_machine : option Machine
}.

Definition valueOf (h : Heap) (pa : loc) : option preparedValue :=
  p ← prepared h !! pa;
  d ← bigInts h !! prevDeadline p;
  b ← protoDatas h !! beforeState p;
  q ← paramsCells h !! params p;
  c ← claimCells h !! claim p;
  Some {| v_leafHash := leafHash p;
          v_prevPrevLeafHash := prevPrevLeafHash p;
          v_prevDataHash := prevDataHash p;
          v_prevDeadline := d;
          v_prevChildType := prevChildType p;
          v_beforeState := b;
          v_params := q;
          v_claim := c;
          v_assertion := assertions h !! pa_assertion p;
          v_machine := machines h !! pa_machine p |}.

(** A mutation of a heap object: an assignment to the fields of a prepared
    assertion, or a write to an object of one of the other regions. *)
Inductive Write :=
| WriteFields (l : loc) (p : preparedAssertion)
| WriteBigInt (l : loc) (v : Z)
| WriteProtoData (l : loc) (v : VMProtoData)
| WriteParams (l : loc) (v : AssertionParams)
| WriteClaim (l : loc) (v : AssertionClaim)
| WriteAssertion (l : loc) (v : ExecutionAssertion)
| WriteMachine (l : loc) (v : Machine).

Definition write (w : Write) (h : Heap) : Heap :=
  match w with
  | WriteFields l p => with_cells preparedR (<[l := p]> (prepared h)) h
  | WriteBigInt l v => with_cells bigIntR (<[l := v]> (bigInts h)) h
  | WriteProtoData l v => with_cells protoDataR (<[l := v]> (protoDatas h)) h
  | WriteParams l v => with_cells paramsR (<[l := v]> (paramsCells h)) h
  | WriteClaim l v => with_cells claimR (<[l := v]> (claimCells h)) h
  | WriteAssertion l v => with_cells assertionR (<[l := v]> (assertions h)) h
  | WriteMachine l v => with_cells machineR (<[l := v]> (machines h)) h
  end.

(** [w] mutates the prepared assertion at [pa]: it assigns to its fields or
    writes to an object one of its pointers leads to. *)
Definition mutates (h : Heap) (pa : loc) (w : Write) : Prop :=
  match w with
  | WriteFields l _ => l = pa
  | WriteBigInt l _ => prevDeadline <$> prepared h !! pa = Some l
  | WriteProtoData l _ => beforeState <$> prepared h !! pa = Some l
  | WriteParams l _ => params <$> prepared h !! pa = Some l
  | WriteClaim l _ => claim <$> prepared h !! pa = Some l
  | WriteAssertion l _ => pa_assertion <$> prepared h !! pa = Some l
  | WriteMachine l _ => pa_machine <$> prepared h !! pa = Some l
  end.

(** The writes that go through the [assertion] or the [machine] pointer. *)
Definition through_shared_pointer (w : Write) : bool :=
  match w with
  | WriteAssertion _ _ | WriteMachine _ _ => true
  | _ => false
  end.

(** ** The chain observer *)

(** Modelled from the spec: [chain.nodeGraph.leaves.IsLeaf] is declared
    outside this file; the leaf set holds the hashes of the nodes with no
    posted successor. *)
Definition IsLeaf (s : State) (n : Node) : bool :=
  bool_decide (hash n ∈ leaves (chain s)).

Definition with_knownValidNode (l : loc) (c : ChainObserver) : ChainObserver :=
  {| knownValidNode := l; nodeFromHash := nodeFromHash c; leaves := leaves c;
     MaxExecutionSteps := MaxExecutionSteps c; pendingInbox := pendingInbox c;
     latestBlockNumber := latestBlockNumber c; listeners := listeners c |}.

Definition with_machine (m : option loc) (n : Node) : Node :=
  {| hash := hash n; prevHash := prevHash n; nodeDataHash := nodeDataHash n;
     deadline := deadline n; linkType := linkType n;
     vmProtoData := vmProtoData n; disputable := disputable n;
     machine := m; assertion := assertion n;
     assertionTxHash := assertionTxHash n;
     successorHashes := successorHashes n |}.

Definition with_assertion (a : option loc) (n : Node) : Node :=
  {| hash := hash n; prevHash := prevHash n; nodeDataHash := nodeDataHash n;
     deadline := deadline n; linkType := linkType n;
     vmProtoData := vmProtoData n; disputable := disputable n;
     machine := machine n; assertion := a;
     assertionTxHash := assertionTxHash n;
     successorHashes := successorHashes n |}.

Definition with_chan (c : list (option loc)) (l : Locals) : Locals :=
  {| assertionPreparedChan := c;
     preparingAssertions := preparingAssertions l;
     preparedAssertions := preparedAssertions l;
     startedBuilds := startedBuilds l |}.
Definition with_preparing (m : gmap Hash bool) (l : Locals) : Locals :=
  {| assertionPreparedChan := assertionPreparedChan l;
     preparingAssertions := m;
     preparedAssertions := preparedAssertions l;
     startedBuilds := startedBuilds l |}.
Definition with_preparedAssertions (m : gmap Hash loc) (l : Locals) : Locals :=
  {| assertionPreparedChan := assertionPreparedChan l;
     preparingAssertions := preparingAssertions l;
     preparedAssertions := m;
     startedBuilds := startedBuilds l |}.
Definition with_startedBuilds (n : nat) (l : Locals) : Locals :=
  {| assertionPreparedChan := assertionPreparedChan l;
     preparingAssertions := preparingAssertions l;
     preparedAssertions := preparedAssertions l;
     startedBuilds := n |}.

(** [node.field = v] through a node pointer. *)
Definition update_node (l : loc) (f : Node -> Node) : M State unit :=
  n <- deref nodeR l ;; assign nodeR l (f n).

(** One call on every listener, in the order of [chain.listeners]. *)
Definition notify (call : nat -> Event) : M State unit :=
  s <- get ;;
  modify (set_events (fun es => es ++ map call (listeners (chain s)))).

(** ** [prepareAssertion], lines 179-239

    The result is nil when the known-valid node is not a leaf. *)
Definition prepareAssertion : M State (option loc) :=
  s <- get ;;
  let inbox := pendingInbox (chain s) in
  currentOpinion <- deref nodeR (knownValidNode (chain s)) ;;
  let currentOpinionHash := hash currentOpinion in
  let prevPrevLeafHash' := prevHash currentOpinion in
  let prevDataHash' := nodeDataHash currentOpinion in
  prevDeadline' <- alloc bigIntR (deadline currentOpinion) ;;
  let prevChildType' := linkType currentOpinion in
  beforeState' <- alloc protoDataR (vmProtoData currentOpinion) ;;
  if negb (IsLeaf s currentOpinion) then ret None
  else
    let afterPendingTop := GetTopHash inbox in
    before <- deref protoDataR beforeState' ;;
    let beforePendingTop := PendingTop before in
    let messageStack := Substack inbox beforePendingTop afterPendingTop in
    let messagesVal := ValueForSubseq inbox beforePendingTop afterPendingTop in
    mach <- (m <- nonnil (machine currentOpinion) ;; Machine_Clone m) ;;
    let timeBounds := currentTimeBounds (latestBlockNumber (chain s)) in
    run <-
      Machine_ExecuteAssertion mach (MaxExecutionSteps (chain s))
        timeBounds messagesVal ;;
    let '(assertion', stepsRun) := run in
    a <- deref assertionR assertion' ;;
    pc <-
      (if DidInboxInsn a then
         params' <- alloc paramsR
           {| NumSteps := stepsRun;
              ParamsTimeBounds := timeBounds;
              ImportedMessageCount := TopCount messageStack |} ;;
         claim' <- alloc claimR
           {| AfterPendingTop := afterPendingTop;
              ImportedMessagesSlice := MessageStack_GetTopHash messageStack;
              ClaimAssertionStub := Stub a |} ;;
         ret (params', claim')
       else
         params' <- alloc paramsR
           {| NumSteps := stepsRun;
              ParamsTimeBounds := timeBounds;
              ImportedMessageCount := 0 |} ;;
         claim' <- alloc claimR
           {| AfterPendingTop := beforePendingTop;
              ImportedMessagesSlice := emptyTupleHash;
              ClaimAssertionStub := Stub a |} ;;
         ret (params', claim')) ;;
    let '(params', claim') := pc in
    p <- alloc preparedR
      {| leafHash := currentOpinionHash;
         prevPrevLeafHash := prevPrevLeafHash';
         prevDataHash := prevDataHash';
         prevDeadline := prevDeadline';
         prevChildType := prevChildType';
         beforeState := beforeState';
         params := params';
         claim := claim';
         pa_assertion := assertion';
         pa_machine := mach |} ;;
    ret (Some p).

(** ** [updateCurrent], lines 68-139 *)

(** Lines 72-79: the node of the first successor hash that is set, nil when
    none is set or the graph has no node for it. *)
Definition firstSuccessor (s : State) (currentOpinion : Node) : option loc :=
  match find (fun ct => negb (successorHashes currentOpinion ct =? zeroBytes32)%N)
             childTypes with
  | Some ct => nodeFromHash (chain s) !! successorHashes currentOpinion ct
  | None => None
  end.

(** [successor.disputable], of a node pointer and a field that may be nil. *)
Definition successor_disputable (successor : option loc) : M State DisputableNode :=
  l <- nonnil successor ;;
  n <- deref nodeR l ;;
  nonnil (disputable n).

(** Lines 84-88: the cached assertion of the current node when its
    parameters and claim equal the posted ones. *)
Definition cachedOpinion (currentOpinion : Node) (successor : option loc)
  : M State (option preparedAssertion) :=
  s <- get ;;
  match preparedAssertions (locals s) !! hash currentOpinion with
  | Some prepped =>
      pa <- deref preparedR prepped ;;
      d <- successor_disputable successor ;;
      pp <- deref paramsR (params pa) ;;
      if AssertionParams_Equals pp (DisputableParams d) then
        pc <- deref claimR (claim pa) ;;
        if AssertionClaim_Equals pc (DisputableClaim d) then ret (Some pa)
        else ret None
      else ret None
  | None => ret None
  end.

(** Lines 81-108: [newOpinion], [nextMachine] and [validExecution]. *)
Definition formOpinion (currentOpinion : Node) (successor : option loc)
  : M State (ChildType * option loc * option loc) :=
  hit <- cachedOpinion currentOpinion successor ;;
  match hit with
  | Some prepped =>
      ret (ValidChildType, Some (pa_machine prepped),
           Some (pa_assertion prepped))
  | None =>
      s <- get ;;
      let inbox := pendingInbox (chain s) in
      d <- successor_disputable successor ;;
      let params := DisputableParams d in
      let claim := DisputableClaim d in
      let claimHeightCopy := GetHeight inbox (AfterPendingTop claim) in
      let messageStack :=
        Substack inbox (PendingTop (vmProtoData currentOpinion))
          (AfterPendingTop claim) in
      let messagesVal :=
        ValueForSubseq inbox (PendingTop (vmProtoData currentOpinion))
          (AfterPendingTop claim) in
      nextMachine <- (m <- nonnil (machine currentOpinion) ;; Machine_Clone m) ;;
      let prevPendingCount := PendingCount (vmProtoData currentOpinion) in
      r <- getNodeOpinion params claim prevPendingCount claimHeightCopy
             messageStack messagesVal nextMachine ;;
      let '(newOpinion, validExecution) := r in
      ret (newOpinion, Some nextMachine, validExecution)
  end.

(** Lines 109-111. *)
Definition resetPrepared : M State unit :=
  modify (set_locals (fun l =>
    with_preparedAssertions ∅ (with_preparing ∅ l))).

(** Lines 113-137. *)
Definition adoptSuccessor
    (successorHashes : ChildType -> Hash)
    (newOpinion : ChildType) (nextMachine validExecution : option loc)
  : M State unit :=
  s <- get ;;
  match nodeFromHash (chain s) !! successorHashes newOpinion with
  | Some correctNode =>
      cn <- deref nodeR correctNode ;;
      (if bool_decide (newOpinion = ValidChildType) then
         notify (fun lis =>
           AdvancedKnownAssertion lis validExecution (assertionTxHash cn))
       else ret tt) ;;;
      (if bool_decide (newOpinion = ValidChildType) then
         update_node correctNode (with_machine nextMachine) ;;;
         update_node correctNode (with_assertion validExecution)
       else
         known <- deref nodeR (knownValidNode (chain s)) ;;
         m <- nonnil (machine known) ;;
         c <- Machine_Clone m ;;
         update_node correctNode (with_machine (Some c))) ;;;
      modify (set_chain (with_knownValidNode correctNode)) ;;;
      known <- deref nodeR correctNode ;;
      notify (fun lis => AdvancedKnownValidNode lis (hash known))
  | None => ret tt
  end.

Definition updateCurrent : M State unit :=
  s <- get ;;
  currentOpinion <- deref nodeR (knownValidNode (chain s)) ;;
  let successorHashes' := successorHashes currentOpinion in
  let successor := firstSuccessor s currentOpinion in
  o <- formOpinion currentOpinion successor ;;
  let '(newOpinion, nextMachine, validExecution) := o in
  resetPrepared ;;;
  adoptSuccessor successorHashes' newOpinion nextMachine validExecution.

(** ** The select loop, lines 141-175 *)

(** Line 150-153, with a bound on the iterations: [true] when the loop left
    because the known-valid node is a leaf, [false] when the bound ran out. *)
Fixpoint catchUp (fuel : nat) : M State bool :=
  s <- get ;;
  known <- deref nodeR (knownValidNode (chain s)) ;;
  if IsLeaf s known then ret true
  else
    match fuel with
    | O => ret false
    | S fuel' => updateCurrent ;;; catchUp fuel'
    end.

(** Lines 167-169. *)
Fixpoint notifyPrepared (prepared : loc) (ls : list nat) : M State unit :=
  match ls with
  | [] => ret tt
  | lis :: ls' =>
      c <- Clone prepared ;;
      modify (set_events (fun es => es ++ [AssertionPrepared lis c])) ;;;
      notifyPrepared prepared ls'
  end.

(** Lines 154-171. *)
Definition prepareNext : M State unit :=
  s <- get ;;
  let inbox := pendingInbox (chain s) in
  known <- deref nodeR (knownValidNode (chain s)) ;;
  match preparingAssertions (locals s) !! hash known with
  | None =>
      let newMessages :=
        negb (PendingTop (vmProtoData known) =? GetTopHash inbox)%N in
      m <- (l <- nonnil (machine known) ;; deref machineR l) ;;
      if negb (IsMachineBlocked m (latestBlockNumber (chain s)) newMessages)
      then
        modify (set_locals (fun l =>
          with_startedBuilds (S (startedBuilds l))
            (with_preparing (<[hash known := true]> (preparingAssertions l)) l)))
      else ret tt
  | Some _ =>
      match preparedAssertions (locals s) !! hash known with
      | Some prepared =>
          if IsLeaf s known then notifyPrepared prepared (listeners (chain s))
          else ret tt
      | None => ret tt
      end
  end.

(** The case [<-ticker.C], lines 147-172. *)
Definition tickerCase (fuel : nat) : M State bool :=
  caughtUp <- catchUp fuel ;;
  if caughtUp then prepareNext ;;; ret true else ret false.

(** The case [prepped := <-assertionPreparedChan], lines 145-146; the case
    cannot be taken while the channel is empty. *)
Definition receiveCase : M State unit :=
  s <- get ;;
  match assertionPreparedChan (locals s) with
  | [] => ret tt
  | prepped :: rest =>
      modify (set_locals (with_chan rest)) ;;;
      l <- nonnil prepped ;;
      pa <- deref preparedR l ;;
      modify (set_locals (fun ls =>
        with_preparedAssertions
          (<[leafHash pa := l]> (preparedAssertions ls)) ls))
  end.

(** The goroutine of lines 160-162.  The channel is a queue; its capacity
    of 20, which makes a sender wait while it is full, is left out. *)
Definition buildGoroutine : M State unit :=
  r <- prepareAssertion ;;
  modify (set_locals (fun l =>
    with_startedBuilds (pred (startedBuilds l))
      (with_chan (assertionPreparedChan l ++ [r]) l))).

(** One turn of the [for]/[select]; [break] at line 144 leaves the
    [select] only. *)
Inductive SelectCase := CtxDone | Received | Ticked.

Definition selectLoopBody (c : SelectCase) (fuel : nat) : M State bool :=
  match c with
  | CtxDone => ret true
  | Received => receiveCase ;;; ret true
  | Ticked => tickerCase fuel
  end.

(** ** The dispute graph as the claims speak of it *)

(** [n'] is a direct successor of [n]: its hash is stored in one of the
    four successor slots of [n]. *)
Definition direct_successor (n n' : Node) : Prop :=
  exists slot, successorHashes n slot = hash n'.

(** The node at [l] lies [d] successor steps below the node at [root]. *)
Inductive depth_from (s : State) (root : loc) : loc -> nat -> Prop :=
| depth_root : depth_from s root root 0
| depth_step l l' n n' d :
    depth_from s root l d ->
    nodes (heap s) !! l = Some n ->
    nodes (heap s) !! l' = Some n' ->
    direct_successor n n' ->
    depth_from s root l' (S d).

(** [nodeFromHash] files every node under its own hash. *)
Definition keys_consistent (s : State) : Prop :=
  forall h l n,
    nodeFromHash (chain s) !! h = Some l ->
    nodes (heap s) !! l = Some n ->
    hash n = h.

(** [s'] is [s] with more machines and assertions allocated: every object
    of [s] is in [s'] as it was, and the chain observer, the variables of
    the loop and the calls on the listeners are those of [s]. *)
Definition grows (s s' : State) : Prop :=
  chain s' = chain s /\
  locals s' = locals s /\
  events s' = events s /\
  bigInts (heap s') = bigInts (heap s) /\
  protoDatas (heap s') = protoDatas (heap s) /\
  paramsCells (heap s') = paramsCells (heap s) /\
  claimCells (heap s') = claimCells (heap s) /\
  prepared (heap s') = prepared (heap s) /\
  nodes (heap s') = nodes (heap s) /\
  machines (heap s) ⊆ machines (heap s') /\
  assertions (heap s) ⊆ assertions (heap s').

(** Every node of [s] is in [s'] with its hash and its successor hashes. *)
Definition same_shape (s s' : State) : Prop :=
  forall l n,
    nodes (heap s) !! l = Some n ->
    exists n',
      nodes (heap s') !! l = Some n' /\
      hash n' = hash n /\ successorHashes n' = successorHashes n.

(** Every entry of the cache of prepared assertions is filed under the leaf
    hash it holds. *)
Definition cache_keyed (s : State) : Prop :=
  forall h l pa,
    preparedAssertions (locals s) !! h = Some l ->
    prepared (heap s) !! l = Some pa ->
    leafHash pa = h.

(** No listener has been handed a prepared assertion between [s] and [s']. *)
Definition none_surfaced (s s' : State) : Prop :=
  forall lis c,
    AssertionPrepared lis c ∈ events s' -> AssertionPrepared lis c ∈ events s.

(** ** The thread as a whole *)

(** A step of the code of this file: one turn of the loop of lines
    141-175, whichever case the [select] takes, or the run of a build
    goroutine of lines 160-162, taken as one step. *)
Inductive thread_step (s s' : State) : Prop :=
| turn_step c fuel b :
    selectLoopBody c fuel s = Ok (b, s') -> thread_step s s'
| build_step :
    buildGoroutine s = Ok (tt, s') -> thread_step s s'.

(** [n'] is [n] but for its fields [machine] and [assertion]. *)
Definition up_to_run (n n' : Node) : Prop :=
  with_machine (machine n) (with_assertion (assertion n) n') = n.

(** Every big integer, VM state, parameters, claim, assertion, machine and
    prepared assertion of [s] is in [s'] with the contents it has in [s],
    and every node of [s] is in [s'] at its address, the same but for its
    fields [machine] and [assertion]. *)
Definition objects_kept (s s' : State) : Prop :=
  bigInts (heap s) ⊆ bigInts (heap s') /\
  protoDatas (heap s) ⊆ protoDatas (heap s') /\
  paramsCells (heap s) ⊆ paramsCells (heap s') /\
  claimCells (heap s) ⊆ claimCells (heap s') /\
  assertions (heap s) ⊆ assertions (heap s') /\
  machines (heap s) ⊆ machines (heap s') /\
  prepared (heap s) ⊆ prepared (heap s') /\
  forall l n,
    nodes (heap s) !! l = Some n ->
    exists n', nodes (heap s') !! l = Some n' /\ up_to_run n n'.

(** Every entry of the cache of prepared assertions leads to a prepared
    assertion that holds the key of the entry as its leaf hash. *)
Definition cache_sound (s : State) : Prop :=
  forall h l,
    preparedAssertions (locals s) !! h = Some l ->
    exists pa, prepared (heap s) !! l = Some pa /\ leafHash pa = h.

End Model.

Arguments cells {_ T} _ _.
Arguments with_cells {_ T} _ _ _.

(** ** What an invocation of [getNodeOpinion] yields: the classification and
    the assertion its pointer leads to; [None] for a panic. *)
Definition outcome `{!Collaborators}
    (r : Res ((ChildType * option loc) * State))
  : option (ChildType * option ExecutionAssertion) :=
  match r with
  | Ok ((ct, a), s') => Some (ct, a ≫= fun l => assertions (heap s') !! l)
  | Panic => None
  end.

(** ** A concrete instance

    A machine that halts after a number of steps; the inbox is its number
    of messages and the hash of a prefix is its length. *)
Definition countdown : Collaborators := {|
  Machine := N;
  TupleValue := N;
  MessageStack := N;
  PendingInbox := N;
  ExecutionAssertion := N * bool;
  AssertionStub := N * bool;
  ExecuteAssertion m maxSteps _ msgs :=
    let n := N.min m maxSteps in ((m - n)%N, (n, negb (msgs =? 0)%N), n);
  IsMachineBlocked m _ _ := (m =? 0)%N;
  DidInboxInsn a := a.2;
  Stub a := a;
  TopCount k := Z.of_N k;
  MessageStack_GetTopHash k := k;
  GetHeight n h := if (h <=? n)%N then Some (Z.of_N h) else None;
  Substack _ older newer := (newer - older)%N;
  ValueForSubseq _ older newer := (newer - older)%N;
  GetTopHash n := n;
  emptyTupleHash := 0%N;
  currentTimeBounds b := (b, (b + 10)%Z)
|}.

Definition noLocals : Locals :=
  {| assertionPreparedChan := []; preparingAssertions := ∅;
     preparedAssertions := ∅; startedBuilds := 0 |}.

(** A state with one machine that halts after three steps. *)
Definition oneMachineHeap : @Heap countdown :=
  {| bigInts := ∅; protoDatas := ∅; paramsCells := ∅; claimCells := ∅;
     assertions := ∅; machines := {[ 1%positive := 3%N ]};
     prepared := ∅; nodes := ∅ |}.

Definition emptyChain : @ChainObserver countdown :=
  {| knownValidNode := 1%positive; nodeFromHash := ∅; leaves := ∅;
     MaxExecutionSteps := 10%N; pendingInbox := (5%N : @PendingInbox countdown);
     latestBlockNumber := 0%Z; listeners := [] |}.

Definition oneMachine : @State countdown :=
  {| heap := oneMachineHeap; chain := emptyChain; locals := noLocals;
     events := [] |}.

Definition threeSteps : AssertionParams :=
  {| NumSteps := 3; ParamsTimeBounds := (0, 10)%Z; ImportedMessageCount := 0 |}.

Definition threeStepsClaim : @AssertionClaim countdown :=
  {| AfterPendingTop := 5%N; ImportedMessagesSlice := 0%N;
     ClaimAssertionStub := ((3%N, false) : @AssertionStub countdown) |}.

(** Another state in which the machine at the same address has three steps
    left: other machines, an assertion and a call on a listener are there
    too. *)
Definition oneMachineAmongOthers : @State countdown :=
  {| heap :=
       {| bigInts := ∅; protoDatas := ∅; paramsCells := ∅; claimCells := ∅;
          assertions :=
            {[ 1%positive := ((9%N, true) : @ExecutionAssertion countdown) ]};
          machines :=
            <[ 2%positive := (7%N : @Machine countdown) ]>
              {[ 1%positive := (3%N : @Machine countdown) ]};
          prepared := ∅; nodes := ∅ |};
     chain := emptyChain;
     locals := noLocals;
     events := [AdvancedKnownValidNode 0 4%N] |}.

(** A state with one prepared assertion, all of whose pointers lead to
    objects; its machine has halted. *)
Definition onePreparedHeap : @Heap countdown :=
  {| bigInts := {[ 1%positive := 100%Z ]};
     protoDatas := {[ 1%positive := {| PendingTop := 5%N; PendingCount := 5%Z |} ]};
     paramsCells := {[ 1%positive := threeSteps ]};
     claimCells := {[ 1%positive := threeStepsClaim ]};
     assertions :=
       {[ 1%positive := ((3%N, false) : @ExecutionAssertion countdown) ]};
     machines := {[ 1%positive := (0%N : @Machine countdown) ]};
     prepared :=
       {[ 1%positive :=
            {| leafHash := 7%N; prevPrevLeafHash := 6%N; prevDataHash := 8%N;
               prevDeadline := 1%positive;
               prevChildType := ValidChildType;
               beforeState := 1%positive; params := 1%positive;
               claim := 1%positive; pa_assertion := 1%positive;
               pa_machine := 1%positive |} ]};
     nodes := ∅ |}.

Definition onePrepared : @State countdown :=
  {| heap := onePreparedHeap; chain := emptyChain; locals := noLocals;
     events := [] |}.

(** A small dispute graph: node A, known valid, with a machine that has
    three steps left, and node B, posted as the valid successor of A with
    the claim that three steps import two messages. *)
Definition nodeA : @Node countdown :=
  {| hash := 10%N; prevHash := 9%N; nodeDataHash := 11%N; deadline := 50%Z;
     linkType := ValidChildType;
     vmProtoData := {| PendingTop := 3%N; PendingCount := 3%Z |};
     disputable := None;
     machine := Some 1%positive; assertion := None;
     assertionTxHash := 0%N;
     successorHashes := fun ct =>
       match ct with ValidChildType => 20%N | _ => zeroBytes32 end |}.

Definition claimOfB (slice : Hash) : @DisputableNode countdown :=
  {| DisputableParams :=
       {| NumSteps := 3; ParamsTimeBounds := (0, 10)%Z;
          ImportedMessageCount := 2 |};
     DisputableClaim :=
       {| AfterPendingTop := 5%N; ImportedMessagesSlice := slice;
          ClaimAssertionStub := ((3%N, true) : @AssertionStub countdown) |} |}.

Definition nodeB (slice : Hash) : @Node countdown :=
  {| hash := 20%N; prevHash := 10%N; nodeDataHash := 21%N; deadline := 60%Z;
     linkType := ValidChildType;
     vmProtoData := {| PendingTop := 5%N; PendingCount := 5%Z |};
     disputable := Some (claimOfB slice);
     machine := None; assertion := None;
     assertionTxHash := 77%N;
     successorHashes := fun _ => zeroBytes32 |}.

Definition graphHeap (slice : Hash) : @Heap countdown :=
  {| bigInts := ∅; protoDatas := ∅; paramsCells := ∅; claimCells := ∅;
     assertions := ∅;
     machines := {[ 1%positive := (3%N : @Machine countdown) ]};
     prepared := ∅;
     nodes := <[ 2%positive := nodeB slice ]> {[ 1%positive := nodeA ]} |}.

Definition graphChain : @ChainObserver countdown :=
  {| knownValidNode := 1%positive;
     nodeFromHash := <[ 20%N := 2%positive ]> {[ 10%N := 1%positive ]};
     leaves := {[ 20%N ]};
     MaxExecutionSteps := 10%N;
     pendingInbox := (5%N : @PendingInbox countdown);
     latestBlockNumber := 0%Z;
     listeners := [0; 1] |}.

(** B claims the slice the inbox has: the claim is valid. *)
Definition postedValid : @State countdown :=
  {| heap := graphHeap 2%N; chain := graphChain; locals := noLocals;
     events := [] |}.

(** B claims another slice; no node is posted yet for the classification
    "invalid message set". *)
Definition postedWrongSlice : @State countdown :=
  {| heap := graphHeap 99%N; chain := graphChain; locals := noLocals;
     events := [] |}.

(** Node A before any successor is posted, alone in the graph. *)
Definition leafA : @Node countdown :=
  {| hash := 10%N; prevHash := 9%N; nodeDataHash := 11%N; deadline := 50%Z;
     linkType := ValidChildType;
     vmProtoData := {| PendingTop := 3%N; PendingCount := 3%Z |};
     disputable := None;
     machine := Some 1%positive; assertion := None;
     assertionTxHash := 0%N;
     successorHashes := fun _ => zeroBytes32 |}.

Definition leafOnly : @State countdown :=
  {| heap :=
       {| bigInts := ∅; protoDatas := ∅; paramsCells := ∅; claimCells := ∅;
          assertions := ∅;
          machines := {[ 1%positive := (3%N : @Machine countdown) ]};
          prepared := ∅;
          nodes := {[ 1%positive := leafA ]} |};
     chain :=
       {| knownValidNode := 1%positive;
          nodeFromHash := {[ 10%N := 1%positive ]};
          leaves := {[ 10%N ]};
          MaxExecutionSteps := 10%N;
          pendingInbox := (5%N : @PendingInbox countdown);
          latestBlockNumber := 0%Z;
          listeners := [0; 1] |};
     locals := noLocals;
     events := [] |}.

(** What the rest of the validator does when B is posted: B enters the
    graph as the only leaf, and A has it in its slot for a valid child. *)
Definition postB (s : @State countdown) : @State countdown :=
  {| heap :=
       with_cells nodeR
         (<[ 2%positive := nodeB 2%N ]>
            (<[ 1%positive := nodeA ]> (nodes (heap s))))
         (heap s);
     chain :=
       {| knownValidNode := knownValidNode (chain s);
          nodeFromHash := <[ 20%N := 2%positive ]> (nodeFromHash (chain s));
          leaves := {[ 20%N ]};
          MaxExecutionSteps := MaxExecutionSteps (chain s);
          pendingInbox := pendingInbox (chain s);
          latestBlockNumber := latestBlockNumber (chain s);
          listeners := listeners (chain s) |};
     locals := locals s;
     events := events s |}.

(** The state [onePrepared] with the address of its prepared assertion
    waiting in the channel. *)
Definition resultWaiting : @State countdown :=
  set_locals (with_chan [Some 1%positive]) onePrepared.

(** The state a computation leaves; the state it started in when it
    fails. *)
Definition after `{!Collaborators} {A} (m : M State A) (s : State) : State :=
  match m s with
  | Ok (_, s') => s'
  | Panic => s
  end.

(** Leaf A once a turn of the ticker has started a build for it, the build
    has run and its result has been received. *)
Definition builtOnLeaf : @State countdown :=
  after (H := countdown) (buildGoroutine ;;; receiveCase)
    (after (H := countdown) (tickerCase 3) leafOnly).

(** The next turn of the ticker hands the prepared assertion to the
    listeners. *)
Definition handedOut : @State countdown :=
  after (H := countdown) (tickerCase 3) builtOnLeaf.

(** B is posted after that, with the parameters and the claim of the
    prepared assertion. *)
Definition builtThenPosted : @State countdown := postB builtOnLeaf.

(** B is posted with a slice the inbox does not have, in the slot for a
    valid child, and its rival C in the slot for a child with an invalid
    message set. *)
Definition nodeAContested : @Node countdown :=
  {| hash := 10%N; prevHash := 9%N; nodeDataHash := 11%N; deadline := 50%Z;
     linkType := ValidChildType;
     vmProtoData := {| PendingTop := 3%N; PendingCount := 3%Z |};
     disputable := None;
     machine := Some 1%positive; assertion := None;
     assertionTxHash := 0%N;
     successorHashes := fun ct =>
       match ct with
       | ValidChildType => 20%N
       | InvalidMessagesChildType => 30%N
       | _ => zeroBytes32
       end |}.

Definition nodeC : @Node countdown :=
  {| hash := 30%N; prevHash := 10%N; nodeDataHash := 31%N; deadline := 60%Z;
     linkType := InvalidMessagesChildType;
     vmProtoData := {| PendingTop := 3%N; PendingCount := 3%Z |};
     disputable := Some (claimOfB 99%N);
     machine := None; assertion := None;
     assertionTxHash := 77%N;
     successorHashes := fun _ => zeroBytes32 |}.

Definition postedContested : @State countdown :=
  {| heap :=
       {| bigInts := ∅; protoDatas := ∅; paramsCells := ∅; claimCells := ∅;
          assertions := ∅;
          machines := {[ 1%positive := (3%N : @Machine countdown) ]};
          prepared := ∅;
          nodes :=
            <[ 3%positive := nodeC ]>
              (<[ 2%positive := nodeB 99%N ]>
                 {[ 1%positive := nodeAContested ]}) |};
     chain :=
       {| knownValidNode := 1%positive;
          nodeFromHash :=
            <[ 30%N := 3%positive ]>
              (<[ 20%N := 2%positive ]> {[ 10%N := 1%positive ]});
          leaves := {[ 20%N; 30%N ]};
          MaxExecutionSteps := 10%N;
          pendingInbox := (5%N : @PendingInbox countdown);
          latestBlockNumber := 0%Z;
          listeners := [0; 1] |};
     locals := noLocals;
     events := [] |}.

(** * Properties *)

Section Properties.
Context `{!Collaborators}.

(** ** Running computations *)

Lemma bind_Ok {S A B} (m : M S A) (k : A -> M S B) s b s' :
  bind m k s = Ok (b, s') <->
  exists a s1, m s = Ok (a, s1) /\ k a s1 = Ok (b, s').
Proof.
  unfold bind. split.
  - destruct (m s) as [[a s1]|]; [eauto | discriminate].
  - intros (a & s1 & -> & Hk). exact Hk.
Qed.

Lemma deref_Ok {T} (R : Region T) l (s : State) v s' :
  deref R l s = Ok (v, s') <-> cells R (heap s) !! l = Some v /\ s' = s.
Proof.
  unfold deref, bind, get, nonnil, ret, panic.
  destruct (cells R (heap s) !! l) as [x|]; split.
  - by intros [= <- <-].
  - by intros [[= <-] ->].
  - discriminate.
  - by intros [? _].
Qed.

Lemma deref_found {T} (R : Region T) l (s : State) v :
  cells R (heap s) !! l = Some v -> deref R l s = Ok (v, s).
Proof. intros. by apply deref_Ok. Qed.

Lemma deref_nil {T} (R : Region T) l (s : State) :
  cells R (heap s) !! l = None -> deref R l s = Panic.
Proof. unfold deref, bind, get, nonnil, panic. by intros ->. Qed.

Lemma alloc_Ok {T} (R : Region T) v (s : State) l s' :
  alloc R v s = Ok (l, s') <->
  l = fresh (dom (cells R (heap s))) /\
  s' = set_heap (fun h => with_cells R (<[l := v]> (cells R h)) h) s.
Proof.
  unfold alloc, bind, get, modify, ret. split.
  - by intros [= <- <-].
  - by intros [-> ->].
Qed.

Lemma fresh_cell {T} (m : gmap loc T) : m !! fresh (dom m) = None.
Proof. apply not_elem_of_dom, is_fresh. Qed.

Lemma fresh_ne {T} (m : gmap loc T) l v :
  m !! l = Some v -> fresh (dom m) <> l.
Proof. intros Hl Heq. rewrite <- Heq, fresh_cell in Hl. discriminate. Qed.

Lemma ret_Ok {S A} (a b : A) (s s' : S) :
  ret a s = Ok (b, s') <-> b = a /\ s' = s.
Proof. unfold ret. split; [by intros [= <- <-] | by intros [-> ->]]. Qed.

Lemma nonnil_Ok {S A} (o : option A) (a : A) (s s' : S) :
  nonnil o s = Ok (a, s') <-> o = Some a /\ s' = s.
Proof.
  destruct o as [x|]; simpl; unfold ret, panic; split.
  - by intros [= <- <-].
  - by intros [[= <-] ->].
  - discriminate.
  - by intros [? _].
Qed.

Lemma modify_Ok {S} (f : S -> S) (s s' : S) u :
  modify f s = Ok (u, s') <-> s' = f s.
Proof. unfold modify. destruct u. split; [by intros [= <-] | by intros ->]. Qed.

Lemma get_Ok {S} (s s' x : S) : get s = Ok (x, s') <-> x = s /\ s' = s.
Proof. unfold get. split; [by intros [= <- <-] | by intros [-> ->]]. Qed.

(** ** [getNodeOpinion] case by case *)

Lemma height_test params prevPendingCount claimHeight :
  match claimHeight with
  | None => true
  | Some h => negb (prevPendingCount + ImportedMessageCount params =? h)%Z
  end = true <-> height_violated params prevPendingCount claimHeight.
Proof.
  unfold height_violated. destruct claimHeight as [h|].
  - rewrite negb_true_iff, Z.eqb_neq. split.
    + intros Hne. right. exists h. by split.
    + intros [Hnone | (h' & Hsome & Hne)]; congruence.
  - split; [by left | done].
Qed.

Lemma messages_test claim messageStack :
  negb (MessageStack_GetTopHash messageStack =? ImportedMessagesSlice claim)%N
  = true <-> messages_violated claim messageStack.
Proof. unfold messages_violated. by rewrite negb_true_iff, N.eqb_neq. Qed.

Section Opinion.
Variables (params : AssertionParams) (claim : AssertionClaim).
Variables (prevPendingCount : Z) (claimHeight : option Z).
Variables (messageStack : MessageStack) (messagesVal : TupleValue).
Variables (prevMach : loc).

Let opinion := getNodeOpinion params claim prevPendingCount claimHeight
                 messageStack messagesVal prevMach.

Let height_bad := height_violated params prevPendingCount claimHeight.
Let messages_bad := messages_violated claim messageStack.

Lemma opinion_height s :
  height_bad -> opinion s = Ok ((InvalidPendingChildType, None), s).
Proof.
  intros Hv%height_test. unfold opinion, getNodeOpinion. by rewrite Hv.
Qed.

Lemma opinion_messages s :
  ~ height_bad -> messages_bad ->
  opinion s = Ok ((InvalidMessagesChildType, None), s).
Proof.
  intros Hh%(not_iff_compat (height_test _ _ _))%not_true_is_false Hm%messages_test.
  unfold opinion, getNodeOpinion. by rewrite Hh, Hm.
Qed.

Lemma Machine_ExecuteAssertion_run mach maxSteps tb msgs (s : State) m m' a n :
  machines (heap s) !! mach = Some m ->
  ExecuteAssertion m maxSteps tb msgs = (m', a, n) ->
  Machine_ExecuteAssertion mach maxSteps tb msgs s
  = Ok ((fresh (dom (assertions (heap s))), n), afterRun s mach m' a).
Proof.
  intros Hm Hx. unfold Machine_ExecuteAssertion.
  unfold bind at 1. rewrite (deref_found machineR _ _ _ Hm), Hx.
  unfold assign. unfold bind at 1. unfold bind at 1.
  rewrite (deref_found machineR _ _ _ Hm). reflexivity.
Qed.

Lemma afterRun_assertion (s : State) mach m' a :
  assertions (heap (afterRun s mach m' a)) !! fresh (dom (assertions (heap s)))
  = Some a.
Proof. simpl. apply lookup_insert_eq. Qed.

Lemma opinion_executed (s : State) m m' a n :
  ~ height_bad -> ~ messages_bad ->
  machines (heap s) !! prevMach = Some m ->
  ExecuteAssertion m (NumSteps params) (ParamsTimeBounds params) messagesVal
  = (m', a, n) ->
  opinion s
  = Ok (if decide (n = NumSteps params /\ Stub a = ClaimAssertionStub claim)
        then (ValidChildType, Some (fresh (dom (assertions (heap s)))))
        else (InvalidExecutionChildType, None),
        afterRun s prevMach m' a).
Proof.
  intros Hh%(not_iff_compat (height_test _ _ _))%not_true_is_false
         Hm%(not_iff_compat (messages_test _ _))%not_true_is_false Hmach Hx.
  unfold opinion, getNodeOpinion. rewrite Hh, Hm.
  unfold bind at 1.
  rewrite (Machine_ExecuteAssertion_run _ _ _ _ _ _ _ _ _ Hmach Hx).
  destruct (N.eqb_spec (NumSteps params) n) as [Hn|Hn]; simpl.
  - unfold bind at 1. unfold bind at 1.
    rewrite (deref_found assertionR _ _ _ (afterRun_assertion s prevMach m' a)).
    unfold AssertionStub_Equals, ret. case_bool_decide; simpl.
    + rewrite decide_True; [done | by split].
    + rewrite decide_False; [done | intros [_ ?]; congruence].
  - unfold bind, ret. rewrite decide_False; [done | intros [? _]; congruence].
Qed.

Lemma opinion_no_machine (s : State) :
  ~ height_bad -> ~ messages_bad ->
  machines (heap s) !! prevMach = None -> opinion s = Panic.
Proof.
  intros Hh%(not_iff_compat (height_test _ _ _))%not_true_is_false
         Hm%(not_iff_compat (messages_test _ _))%not_true_is_false Hmach.
  unfold opinion, getNodeOpinion. rewrite Hh, Hm.
  unfold Machine_ExecuteAssertion. unfold bind at 1. unfold bind at 1.
  by rewrite (deref_nil machineR _ _ Hmach).
Qed.

End Opinion.

Lemma height_violated_dec params prevPendingCount claimHeight :
  height_violated params prevPendingCount claimHeight \/
  ~ height_violated params prevPendingCount claimHeight.
Proof.
  rewrite <- (height_test params prevPendingCount claimHeight).
  destruct (match claimHeight with None => _ | Some _ => _ end); auto.
Qed.

Lemma messages_violated_dec claim messageStack :
  messages_violated claim messageStack \/ ~ messages_violated claim messageStack.
Proof.
  unfold messages_violated.
  destruct (decide (MessageStack_GetTopHash messageStack
                    = ImportedMessagesSlice claim)); auto.
Qed.

(** C2.  When more than one of the height, message-set and execution checks
    is violated, [getNodeOpinion] reports the first violated one in that
    order, and nothing after the failing check has run: the state, in
    which the machine lives, is the one it was called in. *)
Theorem getNodeOpinion_first_violation
    params claim prevPendingCount claimHeight messageStack messagesVal
    prevMach (s : State) (m : Machine) :
  machines (heap s) !! prevMach = Some m ->
  let height := height_violated params prevPendingCount claimHeight in
  let messages := messages_violated claim messageStack in
  let execution := execution_violated params claim messagesVal m in
  (height /\ messages) \/ (height /\ execution) \/ (messages /\ execution) ->
  (height ->
   getNodeOpinion params claim prevPendingCount claimHeight messageStack
     messagesVal prevMach s
   = Ok ((InvalidPendingChildType, None), s)) /\
  (~ height ->
   getNodeOpinion params claim prevPendingCount claimHeight messageStack
     messagesVal prevMach s
   = Ok ((InvalidMessagesChildType, None), s)).
Proof.
  intros _ height messages execution Hmany. split.
  - intros Hh. by apply opinion_height.
  - intros Hh. apply opinion_messages; [done | tauto].
Qed.

(** C3.  [getNodeOpinion] returns [InvalidPendingChildType] with no
    assertion exactly when the claimed height is absent or differs from the
    prior pending count plus the imported message count; with a prior count
    of 5, 2 imported messages and a claimed height of 8 it does. *)
Theorem getNodeOpinion_invalid_pending_iff :
  (forall params claim prevPendingCount claimHeight messageStack messagesVal
          prevMach (s : State),
     (exists s',
        getNodeOpinion params claim prevPendingCount claimHeight messageStack
          messagesVal prevMach s
        = Ok ((InvalidPendingChildType, None), s')) <->
     (claimHeight = None \/
      exists h, claimHeight = Some h /\
                (prevPendingCount + ImportedMessageCount params)%Z <> h)) /\
  (forall numSteps timeBounds claim messageStack messagesVal prevMach
          (s : State),
     getNodeOpinion
       {| NumSteps := numSteps; ParamsTimeBounds := timeBounds;
          ImportedMessageCount := 2 |}
       claim 5 (Some 8%Z) messageStack messagesVal prevMach s
     = Ok ((InvalidPendingChildType, None), s)).
Proof.
  split.
  - intros params claim prevPendingCount claimHeight messageStack messagesVal
      prevMach s.
    change (claimHeight = None \/ _)
      with (height_violated params prevPendingCount claimHeight).
    split.
    + intros [s' Hrun].
      destruct (height_violated_dec params prevPendingCount claimHeight)
        as [|Hh]; [done | exfalso].
      destruct (messages_violated_dec claim messageStack) as [Hm|Hm].
      { rewrite opinion_messages in Hrun by done. discriminate. }
      destruct (machines (heap s) !! prevMach) as [m|] eqn:Hmach.
      * destruct (ExecuteAssertion m (NumSteps params)
                    (ParamsTimeBounds params) messagesVal)
          as [[m' a] n] eqn:Hx.
        rewrite (opinion_executed _ _ _ _ _ _ _ _ _ _ _ _ Hh Hm Hmach Hx)
          in Hrun.
        case_decide; discriminate.
      * rewrite opinion_no_machine in Hrun by done. discriminate.
    + intros Hh. exists s. by apply opinion_height.
  - intros. apply opinion_height. right. exists 8%Z. split; [done | simpl; lia].
Qed.

(** C4.  When the height and message-set checks pass, the result is
    [InvalidExecutionChildType] with no assertion if the replay ran a number
    of steps other than [params.NumSteps] or produced a stub other than the
    claimed one, and otherwise [ValidChildType] with the assertion of the
    replay, whose stub is the claimed stub. *)
Theorem getNodeOpinion_execution_check
    params claim prevPendingCount claimHeight messageStack messagesVal
    prevMach (s : State) (m m' : Machine) (a : ExecutionAssertion)
    (stepsRun : N) :
  ~ height_violated params prevPendingCount claimHeight ->
  ~ messages_violated claim messageStack ->
  machines (heap s) !! prevMach = Some m ->
  ExecuteAssertion m (NumSteps params) (ParamsTimeBounds params) messagesVal
  = (m', a, stepsRun) ->
  let result :=
    outcome (getNodeOpinion params claim prevPendingCount claimHeight
               messageStack messagesVal prevMach s) in
  (stepsRun <> NumSteps params -> result = Some (InvalidExecutionChildType, None)) /\
  (Stub a <> ClaimAssertionStub claim ->
   result = Some (InvalidExecutionChildType, None)) /\
  (stepsRun = NumSteps params -> Stub a = ClaimAssertionStub claim ->
   exists assertion,
     result = Some (ValidChildType, Some assertion) /\
     Stub assertion = ClaimAssertionStub claim).
Proof.
  intros Hh Hm Hmach Hx result. unfold result.
  rewrite (opinion_executed _ _ _ _ _ _ _ _ _ _ _ _ Hh Hm Hmach Hx).
  repeat split.
  - intros Hn. rewrite decide_False; [done | tauto].
  - intros Hn. rewrite decide_False; [done | tauto].
  - intros Hn Hstub. exists a. rewrite decide_True by done.
    split; [|done]. simpl. by rewrite lookup_insert_eq.
Qed.

Lemma getNodeOpinion_effect
    params claim prevPendingCount claimHeight messageStack messagesVal
    prevMach (s : State) r s' :
  getNodeOpinion params claim prevPendingCount claimHeight
    messageStack messagesVal prevMach s = Ok (r, s') ->
  ((height_violated params prevPendingCount claimHeight \/
    messages_violated claim messageStack) /\ s' = s)
  \/
  (~ height_violated params prevPendingCount claimHeight /\
   ~ messages_violated claim messageStack /\
   exists m m' a stepsRun,
     machines (heap s) !! prevMach = Some m /\
     ExecuteAssertion m (NumSteps params) (ParamsTimeBounds params)
       messagesVal = (m', a, stepsRun) /\
     s' = afterRun s prevMach m' a).
Proof.
  destruct (height_violated_dec params prevPendingCount claimHeight) as [Hh|Hh].
  { rewrite opinion_height by done. intros [= <- <-]. left. auto. }
  destruct (messages_violated_dec claim messageStack) as [Hm|Hm].
  { rewrite opinion_messages by done. intros [= <- <-]. left. auto. }
  destruct (machines (heap s) !! prevMach) as [m|] eqn:Hmach.
  - destruct (ExecuteAssertion m (NumSteps params) (ParamsTimeBounds params)
                messagesVal) as [[m' a] n] eqn:Hx.
    rewrite (opinion_executed _ _ _ _ _ _ _ s _ _ _ _ Hh Hm Hmach Hx).
    intros [= <- <-]. right. split_and!; [done..|].
    by exists m, m', a, n.
  - by rewrite (opinion_no_machine _ _ _ _ _ _ _ s).
Qed.

Lemma getNodeOpinion_outcome
    params claim prevPendingCount claimHeight messageStack messagesVal
    mach1 mach2 (s1 s2 : State) :
  machines (heap s1) !! mach1 = machines (heap s2) !! mach2 ->
  outcome (getNodeOpinion params claim prevPendingCount claimHeight
             messageStack messagesVal mach1 s1)
  = outcome (getNodeOpinion params claim prevPendingCount claimHeight
               messageStack messagesVal mach2 s2).
Proof.
  intros Hsame.
  destruct (height_violated_dec params prevPendingCount claimHeight) as [Hh|Hh].
  { by rewrite !opinion_height. }
  destruct (messages_violated_dec claim messageStack) as [Hm|Hm].
  { by rewrite !opinion_messages. }
  destruct (machines (heap s1) !! mach1) as [m|] eqn:Hmach.
  - destruct (ExecuteAssertion m (NumSteps params) (ParamsTimeBounds params)
                messagesVal) as [[m' a] n] eqn:Hx.
    rewrite (opinion_executed _ _ _ _ _ _ _ s1 _ _ _ _ Hh Hm Hmach Hx).
    rewrite (opinion_executed _ _ _ _ _ _ _ s2 _ _ _ _ Hh Hm
               (eq_sym Hsame) Hx).
    case_decide; simpl; [|done]. by rewrite !lookup_insert_eq.
  - rewrite (opinion_no_machine _ _ _ _ _ _ _ s1) by done.
    by rewrite (opinion_no_machine _ _ _ _ _ _ _ s2).
Qed.

(** C9, as the code has it.  The classification and the assertion that
    [getNodeOpinion] yields are a function of the values of its seven
    inputs, the machine input being the state of the machine when it is
    called: two invocations with equal values for the first six inputs and
    machines in equal states yield the same pair, whatever else the two
    states hold.  The function is not free of effects: when the height and
    message-set checks pass it advances the machine it was given and
    allocates the assertion of the run; otherwise it leaves the state as it
    is. *)
Theorem getNodeOpinion_deterministic
    params claim prevPendingCount claimHeight messageStack messagesVal
    prevMach1 prevMach2 (s1 s2 : State) :
  machines (heap s1) !! prevMach1 = machines (heap s2) !! prevMach2 ->
  outcome (getNodeOpinion params claim prevPendingCount claimHeight
             messageStack messagesVal prevMach1 s1)
  = outcome (getNodeOpinion params claim prevPendingCount claimHeight
               messageStack messagesVal prevMach2 s2)
  /\
  (forall r s',
     getNodeOpinion params claim prevPendingCount claimHeight
       messageStack messagesVal prevMach1 s1 = Ok (r, s') ->
     ((height_violated params prevPendingCount claimHeight \/
       messages_violated claim messageStack) /\ s' = s1)
     \/
     (~ height_violated params prevPendingCount claimHeight /\
      ~ messages_violated claim messageStack /\
      exists m m' a stepsRun,
        machines (heap s1) !! prevMach1 = Some m /\
        ExecuteAssertion m (NumSteps params) (ParamsTimeBounds params)
          messagesVal = (m', a, stepsRun) /\
        s' = afterRun s1 prevMach1 m' a)).
Proof.
  intros Hsame. split.
  - by apply getNodeOpinion_outcome.
  - intros r s'. apply getNodeOpinion_effect.
Qed.

Lemma assign_Ok {T} (R : Region T) l v (s : State) u s' :
  assign R l v s = Ok (u, s') <->
  is_Some (cells R (heap s) !! l) /\
  s' = set_heap (fun h => with_cells R (<[l := v]> (cells R h)) h) s.
Proof.
  unfold assign. rewrite bind_Ok. split.
  - intros (x & s1 & [Hx ->]%deref_Ok & ->%modify_Ok). eauto.
  - intros [[x Hx] ->]. exists x, s. split; [by apply deref_Ok|].
    by apply modify_Ok.
Qed.

Lemma Machine_Clone_Ok mach (s : State) c s' :
  Machine_Clone mach s = Ok (c, s') <->
  exists m,
    machines (heap s) !! mach = Some m /\
    c = fresh (dom (machines (heap s))) /\
    s' = set_heap (fun h =>
           with_cells machineR (<[c := m]> (machines h)) h) s.
Proof.
  unfold Machine_Clone. rewrite bind_Ok. split.
  - intros (m & s1 & [Hm ->]%deref_Ok & [-> ->]%alloc_Ok). eauto.
  - intros (m & Hm & -> & ->). exists m, s. split; [by apply deref_Ok|].
    by apply alloc_Ok.
Qed.

Lemma Machine_Clone_run mach (s : State) m :
  machines (heap s) !! mach = Some m ->
  Machine_Clone mach s
  = Ok (fresh (dom (machines (heap s))),
        set_heap (fun h =>
          with_cells machineR
            (<[fresh (dom (machines (heap s))) := m]> (machines h)) h) s).
Proof. intros Hm. apply Machine_Clone_Ok. by exists m. Qed.

Lemma Machine_ExecuteAssertion_Ok mach maxSteps tb msgs (s : State) l n s' :
  Machine_ExecuteAssertion mach maxSteps tb msgs s = Ok ((l, n), s') <->
  exists m m' a,
    machines (heap s) !! mach = Some m /\
    ExecuteAssertion m maxSteps tb msgs = (m', a, n) /\
    l = fresh (dom (assertions (heap s))) /\
    s' = afterRun s mach m' a.
Proof.
  split.
  - intros Hrun. destruct (machines (heap s) !! mach) as [m|] eqn:Hm.
    + destruct (ExecuteAssertion m maxSteps tb msgs) as [[m' a] k] eqn:Hx.
      rewrite (Machine_ExecuteAssertion_run _ _ _ _ _ _ _ _ _ Hm Hx) in Hrun.
      injection Hrun as <- <- <-. by exists m, m', a.
    + unfold Machine_ExecuteAssertion, bind in Hrun.
      by rewrite (deref_nil machineR _ _ Hm) in Hrun.
  - intros (m & m' & a & Hm & Hx & -> & ->).
    by apply Machine_ExecuteAssertion_run with m.
Qed.

(** Inversion of a run that returned, one primitive at a time. *)
Ltac invert_run :=
  repeat match goal with
  | H : Machine_ExecuteAssertion _ _ _ _ _ = Ok (?r, _) |- _ =>
      destruct r as [? ?];
      apply Machine_ExecuteAssertion_Ok in H;
      destruct H as (? & ? & ? & ? & ? & ? & ?); subst
  | H : Machine_Clone _ _ = Ok _ |- _ =>
      apply Machine_Clone_Ok in H; destruct H as (? & ? & ? & ?); subst
  | H : assign _ _ _ _ = Ok _ |- _ =>
      apply assign_Ok in H; destruct H as [[? ?] ?]; subst
  | H : bind _ _ _ = Ok _ |- _ =>
      apply bind_Ok in H; destruct H as (? & ? & ? & H)
  | H : deref _ _ _ = Ok _ |- _ =>
      apply deref_Ok in H; destruct H as [? ?]; subst
  | H : alloc _ _ _ = Ok _ |- _ =>
      apply alloc_Ok in H; destruct H as [? ?]; subst
  | H : ret _ _ = Ok _ |- _ =>
      apply ret_Ok in H; destruct H as [? ?]; subst
  | H : nonnil _ _ = Ok _ |- _ =>
      apply nonnil_Ok in H; destruct H as [? ?]; subst
  | H : modify _ _ = Ok _ |- _ => apply modify_Ok in H; subst
  | H : get _ = Ok _ |- _ =>
      apply get_Ok in H; destruct H as [? ?]; subst
  | H : panic _ = Ok _ |- _ => discriminate H
  | H : Panic = Ok _ |- _ => discriminate H
  end.

(** A cell read back right after it was stored. *)
Ltac inserted_cells :=
  repeat match goal with
  | H : <[?l := _]> _ !! ?l = Some _ |- _ =>
      rewrite lookup_insert_eq in H; injection H as <-
  end.

(** ** [Clone] *)

Lemma Clone_Ok pa (s : State) c s' :
  Clone pa s = Ok (c, s') ->
  exists p v b q cl,
    prepared (heap s) !! pa = Some p /\
    bigInts (heap s) !! prevDeadline p = Some v /\
    protoDatas (heap s) !! beforeState p = Some b /\
    paramsCells (heap s) !! params p = Some q /\
    claimCells (heap s) !! claim p = Some cl /\
    c = fresh (dom (prepared (heap s))) /\
    heap s' =
      {| bigInts := <[fresh (dom (bigInts (heap s))) := v]> (bigInts (heap s));
         protoDatas :=
           <[fresh (dom (protoDatas (heap s))) := b]> (protoDatas (heap s));
         paramsCells :=
           <[fresh (dom (paramsCells (heap s))) := q]> (paramsCells (heap s));
         claimCells :=
           <[fresh (dom (claimCells (heap s))) := cl]> (claimCells (heap s));
         assertions := assertions (heap s);
         machines := machines (heap s);
         prepared :=
           <[c := {| leafHash := leafHash p;
                     prevPrevLeafHash := prevPrevLeafHash p;
                     prevDataHash := prevDataHash p;
                     prevDeadline := fresh (dom (bigInts (heap s)));
                     prevChildType := prevChildType p;
                     beforeState := fresh (dom (protoDatas (heap s)));
                     params := fresh (dom (paramsCells (heap s)));
                     claim := fresh (dom (claimCells (heap s)));
                     pa_assertion := pa_assertion p;
                     pa_machine := pa_machine p |}]> (prepared (heap s));
         nodes := nodes (heap s) |} /\
    chain s' = chain s /\ locals s' = locals s /\ events s' = events s.
Proof.
  unfold Clone, VMProtoData_Clone, AssertionParams_Clone, AssertionClaim_Clone.
  intros Hrun. invert_run. simpl in *.
  eexists _, _, _, _, _. repeat split; eauto.
Qed.

Lemma valueOf_eq (h1 h2 : Heap) pa1 pa2 p1 p2 :
  prepared h1 !! pa1 = Some p1 ->
  prepared h2 !! pa2 = Some p2 ->
  leafHash p1 = leafHash p2 ->
  prevPrevLeafHash p1 = prevPrevLeafHash p2 ->
  prevDataHash p1 = prevDataHash p2 ->
  prevChildType p1 = prevChildType p2 ->
  bigInts h1 !! prevDeadline p1 = bigInts h2 !! prevDeadline p2 ->
  protoDatas h1 !! beforeState p1 = protoDatas h2 !! beforeState p2 ->
  paramsCells h1 !! params p1 = paramsCells h2 !! params p2 ->
  claimCells h1 !! claim p1 = claimCells h2 !! claim p2 ->
  assertions h1 !! pa_assertion p1 = assertions h2 !! pa_assertion p2 ->
  machines h1 !! pa_machine p1 = machines h2 !! pa_machine p2 ->
  valueOf h1 pa1 = valueOf h2 pa2.
Proof.
  intros H1 H2 E1 E2 E3 E4 E5 E6 E7 E8 E9 E10. unfold valueOf.
  rewrite H1, H2; simpl. rewrite E1, E2, E3, E4, E5, E6, E7, E8, E9, E10.
  reflexivity.
Qed.

(** Lookups in maps built by insertions at addresses known to differ. *)
Ltac cells_lookup :=
  simpl; rewrite ?lookup_insert_eq;
  repeat (rewrite lookup_insert_ne by done); rewrite ?lookup_insert_eq;
  try done.

(** C5, as the code has it.  [Clone] returns a new prepared assertion with
    the value of the original.  Assigning to the fields of the clone, or
    writing through its [prevDeadline], [beforeState], [params] or [claim]
    pointer, leaves the value of the original as it is, and the other way
    round.  The [assertion] and [machine] pointers of the clone are those of
    the original. *)
Theorem Clone_independent pa (s : State) c s' :
  Clone pa s = Ok (c, s') ->
  valueOf (heap s') c = valueOf (heap s) pa /\
  valueOf (heap s') pa = valueOf (heap s) pa /\
  (forall w, through_shared_pointer w = false -> mutates (heap s') c w ->
             valueOf (write w (heap s')) pa = valueOf (heap s') pa) /\
  (forall w, through_shared_pointer w = false -> mutates (heap s') pa w ->
             valueOf (write w (heap s')) c = valueOf (heap s') c) /\
  (pa_assertion <$> prepared (heap s') !! c
   = pa_assertion <$> prepared (heap s') !! pa) /\
  (pa_machine <$> prepared (heap s') !! c
   = pa_machine <$> prepared (heap s') !! pa).
Proof.
  intros (p & v & b & q & cl & Hp & Hv & Hb & Hq & Hcl & -> & Hheap & _)%Clone_Ok.
  pose proof (fresh_ne _ _ _ Hp) as Np.
  pose proof (fresh_ne _ _ _ Hv) as Nv.
  pose proof (fresh_ne _ _ _ Hb) as Nb.
  pose proof (fresh_ne _ _ _ Hq) as Nq.
  pose proof (fresh_ne _ _ _ Hcl) as Ncl.
  rewrite Hheap. clear Hheap.
  set (c := fresh (dom (prepared (heap s)))) in *.
  set (clone := {| leafHash := leafHash p; pa_machine := pa_machine p |}).
  repeat split.
  - eapply (valueOf_eq _ _ _ _ clone p); cells_lookup; congruence.
  - eapply (valueOf_eq _ _ _ _ p p); cells_lookup.
  - intros w Hw Hmut.
    destruct w; try discriminate Hw; simpl in Hmut;
      [subst l | rewrite lookup_insert_eq in Hmut; injection Hmut as <- ..];
      eapply (valueOf_eq _ _ _ _ p p); cells_lookup.
  - intros w Hw Hmut.
    destruct w; try discriminate Hw; simpl in Hmut;
      [subst l
      | rewrite lookup_insert_ne, Hp in Hmut by done; injection Hmut as <- ..].
    + eapply (valueOf_eq _ _ _ _ clone clone); cells_lookup.
    + eapply (valueOf_eq _ _ _ _ clone clone); cells_lookup.
    + eapply (valueOf_eq _ _ _ _ clone clone); cells_lookup.
    + eapply (valueOf_eq _ _ _ _ clone clone); cells_lookup.
    + eapply (valueOf_eq _ _ _ _ clone clone); cells_lookup.
  - cells_lookup. by rewrite Hp.
  - cells_lookup. by rewrite Hp.
Qed.

(** ** [prepareAssertion] *)

(** C8.  A prepared assertion returned by [prepareAssertion] records the
    run of a copy of the leaf's machine over the messages between the
    leaf's pending top and the inbox's top: its step count is the steps run
    and its stub is the stub of the run's assertion.  If the run executed an
    inbox instruction, the imported message count, the after-pending top and
    the imported slice are the message stack's count, the inbox's top hash
    and the stack's top hash; if not, they are 0, the leaf's pending top
    and the hash of the empty tuple. *)
Theorem prepareAssertion_result (s : State) p s' :
  prepareAssertion s = Ok (Some p, s') ->
  exists leaf mach m m' a stepsRun pa q cl,
    let inbox := pendingInbox (chain s) in
    let beforePendingTop := PendingTop (vmProtoData leaf) in
    let messageStack := Substack inbox beforePendingTop (GetTopHash inbox) in
    nodes (heap s) !! knownValidNode (chain s) = Some leaf /\
    machine leaf = Some mach /\
    machines (heap s) !! mach = Some m /\
    ExecuteAssertion m (MaxExecutionSteps (chain s))
      (currentTimeBounds (latestBlockNumber (chain s)))
      (ValueForSubseq inbox beforePendingTop (GetTopHash inbox))
    = (m', a, stepsRun) /\
    prepared (heap s') !! p = Some pa /\
    paramsCells (heap s') !! params pa = Some q /\
    claimCells (heap s') !! claim pa = Some cl /\
    assertions (heap s') !! pa_assertion pa = Some a /\
    machines (heap s') !! pa_machine pa = Some m' /\
    NumSteps q = stepsRun /\
    ClaimAssertionStub cl = Stub a /\
    (DidInboxInsn a = true ->
     ImportedMessageCount q = TopCount messageStack /\
     AfterPendingTop cl = GetTopHash inbox /\
     ImportedMessagesSlice cl = MessageStack_GetTopHash messageStack) /\
    (DidInboxInsn a = false ->
     ImportedMessageCount q = 0%Z /\
     AfterPendingTop cl = beforePendingTop /\
     ImportedMessagesSlice cl = emptyTupleHash).
Proof.
  unfold prepareAssertion. intros Hrun. invert_run.
  destruct (IsLeaf _ _); simpl in Hrun; [|by invert_run].
  invert_run. simpl in *. inserted_cells.
  match goal with
  | H : (let '(_, _) := ?pc in _) _ = Ok _ |- _ => destruct pc
  end.
  match goal with
  | H : (if DidInboxInsn ?a then _ else _) _ = Ok _ |- _ =>
      destruct (DidInboxInsn a) eqn:Hinbox
  end; invert_run; simpl in *; simplify_eq;
    (eexists _, _, _, _, _, _, _, _, _; split_and!;
     [eassumption | eassumption | eassumption | eassumption
     | cells_lookup .. ];
     intros Hd; split_and!; simpl; congruence).
Qed.

(** ** [updateCurrent] *)

Lemma grows_refl (s : State) : grows s s.
Proof. by unfold grows. Qed.

Lemma grows_trans (s1 s2 s3 : State) : grows s1 s2 -> grows s2 s3 -> grows s1 s3.
Proof.
  unfold grows. intros (?&?&?&?&?&?&?&?&?&?&?) (?&?&?&?&?&?&?&?&?&?&?).
  split_and!; try congruence; by etrans.
Qed.

Lemma grows_Machine_Clone mach (s : State) c s' :
  Machine_Clone mach s = Ok (c, s') ->
  grows s s' /\ machines (heap s) !! c = None /\
  machines (heap s') !! c = machines (heap s) !! mach.
Proof.
  intros (m & Hm & -> & ->)%Machine_Clone_Ok. split_and!.
  - unfold grows; simpl. split_and!; try done.
    apply insert_subseteq, fresh_cell.
  - apply fresh_cell.
  - simpl. by rewrite lookup_insert_eq.
Qed.

Lemma grows_afterRun (s0 s : State) mach m' a :
  grows s0 s -> machines (heap s0) !! mach = None ->
  grows s0 (afterRun s mach m' a).
Proof.
  unfold grows. intros (?&?&?&?&?&?&?&?&?&?&?) Hnew. simpl.
  split_and!; try done.
  - by apply insert_subseteq_r.
  - etrans; [done|]. apply insert_subseteq, fresh_cell.
Qed.

Lemma cachedOpinion_same cur succ (s : State) r s' :
  cachedOpinion cur succ s = Ok (r, s') -> s' = s.
Proof.
  unfold cachedOpinion, successor_disputable. intros Hrun. invert_run.
  destruct (preparedAssertions _ !! _); invert_run; [|done].
  destruct (AssertionParams_Equals _ _); invert_run; [|done].
  destruct (AssertionClaim_Equals _ _); by invert_run.
Qed.

Lemma formOpinion_grows cur succ (s : State) r s' :
  formOpinion cur succ s = Ok (r, s') -> grows s s'.
Proof.
  unfold formOpinion. intros Hrun. invert_run.
  match goal with
  | H : cachedOpinion _ _ _ = Ok _ |- _ => apply cachedOpinion_same in H; subst
  end.
  match goal with
  | H : match ?hit with Some _ => _ | None => _ end _ = Ok _ |- _ =>
      destruct hit
  end; invert_run; [apply grows_refl|].
  unfold successor_disputable in *. invert_run.
  match goal with
  | H : getNodeOpinion _ _ _ _ _ _ _ _ = Ok (?r, _) |- _ =>
      destruct r as [newOpinion validExecution];
      apply getNodeOpinion_effect in H;
      destruct H as [[_ ->] | (_ & _ & m & m' & a & n & _ & _ & ->)]
  end; invert_run.
  - unfold grows; simpl. split_and!; try done.
    apply insert_subseteq, fresh_cell.
  - apply grows_afterRun; [|apply fresh_cell].
    unfold grows; simpl. split_and!; try done.
    apply insert_subseteq, fresh_cell.
Qed.

Lemma updateCurrent_Ok (s : State) u s' :
  updateCurrent s = Ok (u, s') ->
  exists cur newOpinion nextMachine validExecution s1,
    nodes (heap s) !! knownValidNode (chain s) = Some cur /\
    formOpinion cur (firstSuccessor s cur) s
    = Ok ((newOpinion, nextMachine, validExecution), s1) /\
    adoptSuccessor (successorHashes cur) newOpinion nextMachine validExecution
      (set_locals (fun l => with_preparedAssertions ∅ (with_preparing ∅ l)) s1)
    = Ok (u, s').
Proof.
  unfold updateCurrent, resetPrepared. intros Hrun. invert_run.
  match goal with
  | H : formOpinion _ _ _ = Ok (?o, _) |- _ => destruct o as [[no nm] ve]
  end.
  invert_run. eauto 10.
Qed.

Lemma updateCurrent_run (s : State) cur newOpinion nextMachine validExecution s1 :
  nodes (heap s) !! knownValidNode (chain s) = Some cur ->
  formOpinion cur (firstSuccessor s cur) s
  = Ok ((newOpinion, nextMachine, validExecution), s1) ->
  updateCurrent s
  = adoptSuccessor (successorHashes cur) newOpinion nextMachine validExecution
      (set_locals (fun l => with_preparedAssertions ∅ (with_preparing ∅ l)) s1).
Proof.
  intros Hcur Hform. unfold updateCurrent.
  unfold bind at 1. unfold get at 1.
  unfold bind at 1. rewrite (deref_found nodeR _ _ _ Hcur).
  unfold bind at 1. rewrite Hform.
  unfold bind at 1. unfold resetPrepared, modify. reflexivity.
Qed.

Lemma adoptSuccessor_missing succs newOpinion nextMachine validExecution
    (s : State) :
  nodeFromHash (chain s) !! succs newOpinion = None ->
  adoptSuccessor succs newOpinion nextMachine validExecution s = Ok (tt, s).
Proof.
  intros Hnone. unfold adoptSuccessor, bind, get. by rewrite Hnone.
Qed.

Lemma adoptSuccessor_found succs newOpinion nextMachine validExecution
    (s : State) correctNode u s' :
  nodeFromHash (chain s) !! succs newOpinion = Some correctNode ->
  adoptSuccessor succs newOpinion nextMachine validExecution s = Ok (u, s') ->
  knownValidNode (chain s') = correctNode /\
  nodeFromHash (chain s') = nodeFromHash (chain s) /\
  exists cn next,
    nodes (heap s) !! correctNode = Some cn /\
    nodes (heap s') = <[correctNode := next]> (nodes (heap s)) /\
    hash next = hash cn /\
    successorHashes next = successorHashes cn.
Proof.
  intros Hsome. unfold adoptSuccessor. intros Hrun.
  apply bind_Ok in Hrun. destruct Hrun as (s0 & s1 & [-> ->]%get_Ok & Hrun).
  rewrite Hsome in Hrun. unfold notify, update_node in Hrun.
  destruct (bool_decide (newOpinion = ValidChildType));
    invert_run; simpl in *; inserted_cells; simplify_eq; simpl.
  - split_and!; [done..|]. eexists _, _.
    split_and!; [eassumption | by rewrite insert_insert_eq | done..].
  - split_and!; [done..|]. eexists _, _.
    split_and!; [eassumption | reflexivity | done..].
Qed.

Lemma depth_from_same_shape (s s' : State) root l d :
  same_shape s s' -> depth_from s root l d -> depth_from s' root l d.
Proof.
  intros Hshape. induction 1 as [|l l' n n' d _ IH Hl Hl' [slot Hslot]].
  - constructor.
  - destruct (Hshape _ _ Hl) as (m & Hm & Hhash & Hsuccs).
    destruct (Hshape _ _ Hl') as (m' & Hm' & Hhash' & Hsuccs').
    eapply depth_step; [exact IH | exact Hm | exact Hm' |].
    exists slot. by rewrite Hsuccs, Hhash'.
Qed.

Lemma same_shape_insert (s s' : State) l cn next :
  nodes (heap s) !! l = Some cn ->
  nodes (heap s') = <[l := next]> (nodes (heap s)) ->
  hash next = hash cn ->
  successorHashes next = successorHashes cn ->
  same_shape s s'.
Proof.
  intros Hcn Hnodes Hhash Hsuccs l' n Hn. rewrite Hnodes.
  destruct (decide (l = l')) as [<-|Hne].
  - rewrite lookup_insert_eq. exists next. by simplify_eq.
  - rewrite lookup_insert_ne by done. by exists n.
Qed.

(** C10.  When the graph has no node under the successor hash of the chosen
    classification, [updateCurrent] returns with the chain observer, every
    node and the calls made on the listeners as they were; both caches are
    empty, and nothing else of the loop's variables or of the objects that
    existed has changed. *)
Theorem updateCurrent_lookup_fails
    (s : State) cur newOpinion nextMachine validExecution s1 :
  nodes (heap s) !! knownValidNode (chain s) = Some cur ->
  formOpinion cur (firstSuccessor s cur) s
  = Ok ((newOpinion, nextMachine, validExecution), s1) ->
  nodeFromHash (chain s) !! successorHashes cur newOpinion = None ->
  exists s',
    updateCurrent s = Ok (tt, s') /\
    knownValidNode (chain s') = knownValidNode (chain s) /\
    chain s' = chain s /\
    nodes (heap s') = nodes (heap s) /\
    events s' = events s /\
    preparingAssertions (locals s') = ∅ /\
    preparedAssertions (locals s') = ∅ /\
    grows (set_locals (fun l => with_preparedAssertions ∅ (with_preparing ∅ l)) s)
      s'.
Proof.
  intros Hcur Hform Hnone.
  pose proof (formOpinion_grows _ _ _ _ _ Hform)
    as (Hchain & Hlocals & Hevents & ? & ? & ? & ? & ? & Hnodes & ? & ?).
  eexists. split.
  - rewrite (updateCurrent_run _ _ _ _ _ _ Hcur Hform).
    apply adoptSuccessor_missing. simpl. by rewrite Hchain.
  - simpl. split_and!; try done; [by rewrite Hchain|].
    unfold grows; simpl. split_and!; try done. by rewrite Hlocals.
Qed.

(** C1.  An invocation of [updateCurrent] that returns either finds no node
    under the successor hash of its classification and leaves the
    known-valid pointer where it was, or moves it to the node filed under
    that hash: a node whose hash is in one of the four successor slots of
    the node it leaves, one successor step deeper in the graph. *)
Theorem updateCurrent_moves_to_successor (s : State) s' :
  keys_consistent s ->
  updateCurrent s = Ok (tt, s') ->
  exists cur slot,
    nodes (heap s) !! knownValidNode (chain s) = Some cur /\
    match nodeFromHash (chain s) !! successorHashes cur slot with
    | None =>
        knownValidNode (chain s') = knownValidNode (chain s) /\
        nodes (heap s') = nodes (heap s)
    | Some correctNode =>
        knownValidNode (chain s') = correctNode /\
        exists next,
          nodes (heap s') !! correctNode = Some next /\
          hash next = successorHashes cur slot /\
          direct_successor cur next /\
          forall root d,
            depth_from s root (knownValidNode (chain s)) d ->
            depth_from s' root correctNode (S d)
    end.
Proof.
  intros Hkeys (cur & newOpinion & nm & ve & s1 & Hcur & Hform & Hadopt)%updateCurrent_Ok.
  pose proof (formOpinion_grows _ _ _ _ _ Hform)
    as (Hchain & Hlocals & Hevents & ? & ? & ? & ? & ? & Hnodes & ? & ?).
  exists cur, newOpinion. split; [done|].
  destruct (nodeFromHash (chain s) !! successorHashes cur newOpinion)
    as [correctNode|] eqn:Hlookup.
  - apply adoptSuccessor_found with (correctNode := correctNode) in Hadopt;
      [|simpl; by rewrite Hchain].
    destruct Hadopt as (Hknown & _ & cn & next & Hcn & Hnodes' & Hhash & Hsuccs).
    simpl in Hcn, Hnodes'. rewrite Hnodes in Hcn, Hnodes'.
    assert (Hnext : hash next = successorHashes cur newOpinion).
    { rewrite Hhash. by apply (Hkeys _ correctNode). }
    split; [done|]. exists next. split_and!.
    + rewrite Hnodes'. apply lookup_insert_eq.
    + done.
    + by exists newOpinion.
    + intros root d Hdepth.
      pose proof (same_shape_insert s s' _ _ _ Hcn Hnodes' Hhash Hsuccs)
        as Hshape.
      destruct (Hshape _ _ Hcur) as (cur' & Hcur' & Hh' & Hs').
      eapply depth_step.
      * eapply depth_from_same_shape; [exact Hshape | exact Hdepth].
      * exact Hcur'.
      * rewrite Hnodes'. apply lookup_insert_eq.
      * exists newOpinion. by rewrite Hs'.
  - rewrite adoptSuccessor_missing in Hadopt by (simpl; by rewrite Hchain).
    injection Hadopt as <-. simpl. by rewrite Hchain.
Qed.

(** C7, as the code has it.  When the graph has no node under the successor
    hash of the chosen classification, [updateCurrent] does not panic: it
    returns with the known-valid pointer where it was, and the catch-up
    loop, which left the node a non-leaf, goes into its next round. *)
Theorem updateCurrent_missing_successor_retried
    (s : State) cur newOpinion nextMachine validExecution s1 :
  nodes (heap s) !! knownValidNode (chain s) = Some cur ->
  IsLeaf s cur = false ->
  formOpinion cur (firstSuccessor s cur) s
  = Ok ((newOpinion, nextMachine, validExecution), s1) ->
  nodeFromHash (chain s) !! successorHashes cur newOpinion = None ->
  exists s',
    updateCurrent s = Ok (tt, s') /\
    knownValidNode (chain s') = knownValidNode (chain s) /\
    nodes (heap s') !! knownValidNode (chain s') = Some cur /\
    IsLeaf s' cur = false /\
    forall fuel, catchUp (S fuel) s = catchUp fuel s'.
Proof.
  intros Hcur Hleaf Hform Hnone.
  pose proof (formOpinion_grows _ _ _ _ _ Hform)
    as (Hchain & Hlocals & Hevents & ? & ? & ? & ? & ? & Hnodes & ? & ?).
  assert (Hrun : updateCurrent s
                 = Ok (tt, set_locals (fun l =>
                         with_preparedAssertions ∅ (with_preparing ∅ l)) s1)).
  { rewrite (updateCurrent_run _ _ _ _ _ _ Hcur Hform).
    apply adoptSuccessor_missing. simpl. by rewrite Hchain. }
  eexists. split; [exact Hrun|]. simpl. split_and!.
  - by rewrite Hchain.
  - by rewrite Hchain, Hnodes.
  - unfold IsLeaf in *. simpl. by rewrite Hchain.
  - intros fuel. simpl. unfold bind at 1. unfold get at 1.
    unfold bind at 1. rewrite (deref_found nodeR _ _ _ Hcur).
    rewrite Hleaf. unfold bind at 1. by rewrite Hrun.
Qed.

(** The catch-up loop on a missing successor. *)

Lemma cachedOpinion_miss cur succ (s : State) :
  preparedAssertions (locals s) !! hash cur = None ->
  cachedOpinion cur succ s = Ok (None, s).
Proof. intros Hmiss. unfold cachedOpinion, bind, get. by rewrite Hmiss. Qed.

Lemma successor_disputable_Ok succ (s : State) d s' :
  successor_disputable succ s = Ok (d, s') <->
  s' = s /\
  exists l n, succ = Some l /\ nodes (heap s) !! l = Some n /\
              disputable n = Some d.
Proof.
  unfold successor_disputable. split.
  - intros Hrun. invert_run. eauto 10.
  - intros (-> & l & n & -> & Hn & Hd). simpl. unfold bind at 1, ret at 1.
    unfold bind at 1. rewrite (deref_found nodeR _ _ _ Hn).
    by rewrite Hd.
Qed.

Lemma outcome_Ok (r : Res ((ChildType * option loc) * State)) ct l0 s0 :
  outcome r = outcome (Ok ((ct, l0), s0)) ->
  exists l s', r = Ok ((ct, l), s').
Proof.
  destruct r as [[[ct' l] s']|]; simpl; [|discriminate].
  intros [= -> _]. eauto.
Qed.

Lemma formOpinion_again cur succ (s t : State) newOpinion nm ve s1 :
  preparedAssertions (locals s) !! hash cur = None ->
  preparedAssertions (locals t) !! hash cur = None ->
  chain t = chain s ->
  nodes (heap t) = nodes (heap s) ->
  machines (heap s) ⊆ machines (heap t) ->
  formOpinion cur succ s = Ok ((newOpinion, nm, ve), s1) ->
  exists nm' ve' t1, formOpinion cur succ t = Ok ((newOpinion, nm', ve'), t1).
Proof.
  intros Hs Ht Hchain Hnodes Hsub Hrun. unfold formOpinion in Hrun.
  apply bind_Ok in Hrun. destruct Hrun as (hit & s0 & Hhit & Hrun).
  rewrite (cachedOpinion_miss _ _ _ Hs) in Hhit. injection Hhit as <- <-.
  unfold formOpinion. unfold bind at 1. rewrite (cachedOpinion_miss _ _ _ Ht).
  invert_run.
  match goal with
  | H : successor_disputable _ _ = Ok _ |- _ =>
      apply successor_disputable_Ok in H;
      destruct H as (-> & l & n & -> & Hn & Hd)
  end.
  invert_run.
  match goal with
  | H : getNodeOpinion _ _ _ _ _ _ _ _ = Ok (?r, _) |- _ =>
      destruct r as [newOpinion' ve0]; pose proof H as Hopinion
  end.
  invert_run.
  match goal with
  | H : machines (heap s) !! ?ml = Some ?m |- _ =>
      pose proof (lookup_weaken _ _ _ _ H Hsub) as Hm
  end.
  simplify_eq.
  unfold bind at 1, get at 1.
  unfold bind at 1.
  match goal with
  | Hd : disputable n = Some ?d |- _ =>
      rewrite (proj2 (successor_disputable_Ok (Some l) t d t)); cycle 1
  end.
  { split; [done|]. exists l, n. by rewrite Hnodes. }
  unfold bind at 1. unfold bind at 1.
  match goal with
  | H : machine cur = Some _ |- _ => rewrite H
  end.
  simpl nonnil. unfold ret at 1.
  rewrite (Machine_Clone_run _ _ _ Hm).
  unfold bind at 1.
  match type of Hopinion with
  | getNodeOpinion ?p ?c ?n ?h ?ms ?mv ?mach ?s2 = _ =>
      match goal with
      | |- context [getNodeOpinion _ _ _ _ _ _ ?mach' ?t2] =>
          pose proof (getNodeOpinion_outcome p c n h ms mv mach mach' s2 t2)
            as Hsame
      end
  end.
  rewrite Hopinion in Hsame.
  symmetry in Hsame. apply outcome_Ok in Hsame;
    [|simpl; by rewrite !lookup_insert_eq].
  destruct Hsame as (ve' & t1 & Hrun'). rewrite Hchain, Hrun'.
  unfold ret. eauto.
Qed.

(** X13.  From a state in which nothing is cached for the known-valid node,
    the node is not a leaf and the graph has no node for the classification of
    its successor, the catch-up loop does not come to an end by itself:
    every bound on its rounds runs out with the pointer where it was. *)
Lemma catchUp_missing_successor_spins fuel :
  forall (s : State) cur newOpinion nextMachine validExecution s1,
    nodes (heap s) !! knownValidNode (chain s) = Some cur ->
    IsLeaf s cur = false ->
    preparedAssertions (locals s) !! hash cur = None ->
    formOpinion cur (firstSuccessor s cur) s
    = Ok ((newOpinion, nextMachine, validExecution), s1) ->
    nodeFromHash (chain s) !! successorHashes cur newOpinion = None ->
    exists s',
      catchUp fuel s = Ok (false, s') /\
      knownValidNode (chain s') = knownValidNode (chain s).
Proof.
  induction fuel as [|fuel IH];
    intros s cur newOpinion nm ve s1 Hcur Hleaf Hmiss Hform Hnone.
  - exists s. split; [|done]. simpl. unfold bind at 1, get at 1.
    unfold bind at 1. rewrite (deref_found nodeR _ _ _ Hcur).
    by rewrite Hleaf.
  - pose proof (formOpinion_grows _ _ _ _ _ Hform)
      as (Hchain & Hlocals & Hevents & ? & ? & ? & ? & ? & Hnodes & Hsub & ?).
    set (s' := set_locals (fun l =>
                 with_preparedAssertions ∅ (with_preparing ∅ l)) s1).
    assert (Hrun : updateCurrent s = Ok (tt, s')).
    { rewrite (updateCurrent_run _ _ _ _ _ _ Hcur Hform).
      apply adoptSuccessor_missing. simpl. by rewrite Hchain. }
    destruct (formOpinion_again cur (firstSuccessor s cur) s s'
                newOpinion nm ve s1) as (nm' & ve' & t1 & Hform');
      [done | done | done | done | done | done |].
    destruct (IH s' cur newOpinion nm' ve' t1) as (s'' & Hloop & Hknown).
    + simpl. by rewrite Hchain, Hnodes.
    + unfold IsLeaf in *. simpl. by rewrite Hchain.
    + done.
    + replace (firstSuccessor s' cur) with (firstSuccessor s cur); [done|].
      unfold firstSuccessor. simpl. by rewrite Hchain.
    + simpl. by rewrite Hchain.
    + exists s''. split.
      * simpl. unfold bind at 1, get at 1.
        unfold bind at 1. rewrite (deref_found nodeR _ _ _ Hcur).
        rewrite Hleaf. unfold bind at 1. by rewrite Hrun.
      * rewrite Hknown. simpl. by rewrite Hchain.
Qed.

(** ** The select loop *)

Lemma notify_not_prepared (call : nat -> Event) (ls : list nat) es lis c :
  (forall l, call l <> AssertionPrepared lis c) ->
  AssertionPrepared lis c ∈ es ++ map call ls ->
  AssertionPrepared lis c ∈ es.
Proof.
  intros Hcall [Hin|Hin]%elem_of_app; [done|].
  apply list_elem_of_In, in_map_iff in Hin. destruct Hin as (l & Hl & _).
  by destruct (Hcall l).
Qed.

Lemma none_surfaced_refl (s : State) : none_surfaced s s.
Proof. by intros lis c. Qed.

Lemma none_surfaced_trans (s1 s2 s3 : State) :
  none_surfaced s1 s2 -> none_surfaced s2 s3 -> none_surfaced s1 s3.
Proof. intros H12 H23 lis c Hin. by apply H12, H23. Qed.

Lemma adoptSuccessor_events succs newOpinion nextMachine validExecution
    (s : State) u s' :
  adoptSuccessor succs newOpinion nextMachine validExecution s = Ok (u, s') ->
  locals s' = locals s /\ none_surfaced s s'.
Proof.
  unfold adoptSuccessor. intros Hrun.
  apply bind_Ok in Hrun. destruct Hrun as (s0 & s1 & [-> ->]%get_Ok & Hrun).
  destruct (nodeFromHash (chain s) !! succs newOpinion) as [correctNode|];
    [|invert_run; split; [done | apply none_surfaced_refl]].
  unfold notify, update_node in Hrun.
  destruct (bool_decide (newOpinion = ValidChildType));
    invert_run; simpl in *; (split; [done|]); intros lis c Hin; simpl in Hin.
  - apply notify_not_prepared in Hin; [|done].
    by apply notify_not_prepared in Hin.
  - by apply notify_not_prepared in Hin.
Qed.

Lemma updateCurrent_none_surfaced (s : State) u s' :
  updateCurrent s = Ok (u, s') ->
  none_surfaced s s' /\ preparedAssertions (locals s') = ∅.
Proof.
  intros (cur & newOpinion & nm & ve & s1 & Hcur & Hform & Hadopt)%updateCurrent_Ok.
  pose proof (formOpinion_grows _ _ _ _ _ Hform)
    as (_ & _ & Hevents & _).
  apply adoptSuccessor_events in Hadopt. destruct Hadopt as [Hlocals Hnone].
  split.
  - intros lis c Hin. apply Hnone in Hin. simpl in Hin. by rewrite <- Hevents.
  - by rewrite Hlocals.
Qed.

Lemma cache_keyed_empty (s : State) :
  preparedAssertions (locals s) = ∅ -> cache_keyed s.
Proof. intros Hempty h l pa. by rewrite Hempty, lookup_empty. Qed.

Lemma catchUp_none_surfaced fuel (s : State) b s' :
  catchUp fuel s = Ok (b, s') ->
  none_surfaced s s' /\ (cache_keyed s -> cache_keyed s').
Proof.
  revert s. induction fuel as [|fuel IH]; intros s Hrun; simpl in Hrun;
    invert_run.
  - destruct (IsLeaf _ _); invert_run; split; auto using none_surfaced_refl.
  - destruct (IsLeaf _ _); invert_run; [split; auto using none_surfaced_refl|].
    match goal with
    | H : updateCurrent _ = Ok _ |- _ =>
        apply updateCurrent_none_surfaced in H; destruct H as [Hnone Hempty]
    end.
    apply IH in Hrun. destruct Hrun as [Hnone' Hkeyed]. split.
    + by eapply none_surfaced_trans.
    + intros _. by apply Hkeyed, cache_keyed_empty.
Qed.

Lemma Clone_keeps pa (s : State) c s' :
  Clone pa s = Ok (c, s') ->
  chain s' = chain s /\ locals s' = locals s /\ events s' = events s /\
  nodes (heap s') = nodes (heap s) /\
  prepared (heap s) ⊆ prepared (heap s') /\
  exists p ca,
    prepared (heap s) !! pa = Some p /\
    prepared (heap s') !! c = Some ca /\
    leafHash ca = leafHash p.
Proof.
  intros (p & v & b & q & cl & Hp & _ & _ & _ & _ & -> & Hheap & Hc & Hl & He)%Clone_Ok.
  rewrite Hheap. simpl. split_and!; try done.
  - apply insert_subseteq, fresh_cell.
  - eexists p, _. split_and!; [done | apply lookup_insert_eq | done].
Qed.

Lemma notifyPrepared_surfaces pa ls (s : State) u s' p :
  notifyPrepared pa ls s = Ok (u, s') ->
  prepared (heap s) !! pa = Some p ->
  chain s' = chain s /\ nodes (heap s') = nodes (heap s) /\
  prepared (heap s) ⊆ prepared (heap s') /\
  forall lis c,
    AssertionPrepared lis c ∈ events s' ->
    AssertionPrepared lis c ∈ events s \/
    exists ca, prepared (heap s') !! c = Some ca /\ leafHash ca = leafHash p.
Proof.
  revert s. induction ls as [|l ls IH]; intros s Hrun Hp; simpl in Hrun.
  - invert_run. split_and!; auto.
  - apply bind_Ok in Hrun. destruct Hrun as (c0 & s1 & Hclone & Hrun).
    apply Clone_keeps in Hclone.
    destruct Hclone as (Hchain & _ & Hevents & Hnodes & Hsub & p' & ca & Hp'
                        & Hca & Hleaf).
    assert (p' = p) as -> by congruence.
    invert_run.
    apply IH in Hrun; [|simpl; by eapply lookup_weaken].
    simpl in Hrun. destruct Hrun as (Hchain' & Hnodes' & Hsub' & Hin).
    split_and!; [congruence | congruence | by etrans |].
    intros lis c [Hold|Hnew]%Hin; [|by right].
    rewrite Hevents in Hold. apply elem_of_app in Hold as [Hold|Hhere];
      [by left | right].
    apply list_elem_of_singleton in Hhere. injection Hhere as -> ->.
    exists ca. split; [|done]. by eapply lookup_weaken.
Qed.

Lemma prepareNext_surfaces (s : State) u s' :
  cache_keyed s ->
  prepareNext s = Ok (u, s') ->
  chain s' = chain s /\ nodes (heap s') = nodes (heap s) /\
  forall lis c,
    AssertionPrepared lis c ∈ events s' ->
    AssertionPrepared lis c ∈ events s \/
    exists known ca,
      nodes (heap s) !! knownValidNode (chain s) = Some known /\
      prepared (heap s') !! c = Some ca /\
      leafHash ca = hash known.
Proof.
  intros Hkeyed. unfold prepareNext. intros Hrun. invert_run.
  destruct (preparingAssertions _ !! _); invert_run.
  - destruct (preparedAssertions _ !! _) as [pa|] eqn:Hcache; invert_run;
      [|split_and!; auto].
    destruct (IsLeaf _ _); invert_run; [|split_and!; auto].
    destruct (prepared (heap s) !! pa) as [p|] eqn:Hp.
    + apply (notifyPrepared_surfaces _ _ _ _ _ p) in Hrun; [|done].
      destruct Hrun as (Hchain & Hnodes & _ & Hin).
      split_and!; [done..|].
      intros lis c [Hold|(ca & Hca & Hleaf)]%Hin; [by left | right].
      eexists _, ca. split_and!; [eassumption | done |].
      rewrite Hleaf. by eapply Hkeyed.
    + destruct (listeners (chain s)) as [|l ls]; simpl in Hrun;
        [invert_run; split_and!; auto|].
      apply bind_Ok in Hrun. destruct Hrun as (? & ? & Hclone & _).
      apply Clone_Ok in Hclone. destruct Hclone as (p & ? & ? & ? & ? & Hp' & _).
      congruence.
  - destruct (IsMachineBlocked _ _ _); simpl in Hrun; invert_run;
      split_and!; auto.
Qed.

(** A build that finds the known-valid node no longer a leaf returns nil,
    and the goroutine sends the nil on the channel; the receive case
    dereferences what it receives. *)
Lemma prepareAssertion_not_leaf (s : State) cur :
  nodes (heap s) !! knownValidNode (chain s) = Some cur ->
  IsLeaf s cur = false ->
  exists s',
    prepareAssertion s = Ok (None, s') /\
    chain s' = chain s /\ locals s' = locals s /\ events s' = events s /\
    nodes (heap s') = nodes (heap s) /\ machines (heap s') = machines (heap s).
Proof.
  intros Hcur Hleaf. unfold prepareAssertion.
  unfold bind at 1, get at 1.
  unfold bind at 1. rewrite (deref_found nodeR _ _ _ Hcur).
  unfold bind at 1, alloc at 1, bind at 1, get at 1, bind at 1, modify at 1,
    ret at 1.
  unfold bind at 1, alloc at 1, bind at 1, get at 1, bind at 1, modify at 1,
    ret at 1.
  rewrite Hleaf. simpl negb. cbv iota. unfold ret.
  eexists. split; [reflexivity|]. simpl. by split_and!.
Qed.

Lemma receiveCase_nil (s : State) rest :
  assertionPreparedChan (locals s) = None :: rest ->
  receiveCase s = Panic.
Proof.
  intros Hchan. unfold receiveCase, bind at 1, get. by rewrite Hchan.
Qed.

Lemma receiveCase_stores (s : State) l pa rest :
  assertionPreparedChan (locals s) = Some l :: rest ->
  prepared (heap s) !! l = Some pa ->
  receiveCase s
  = Ok (tt, set_locals (fun ls =>
              with_preparedAssertions
                (<[leafHash pa := l]> (preparedAssertions ls))
                (with_chan rest ls)) s).
Proof.
  intros Hchan Hl. unfold receiveCase, bind at 1, get. rewrite Hchan.
  unfold bind at 1. unfold modify at 1.
  unfold bind at 1. simpl nonnil. unfold ret at 1.
  unfold bind at 1. by rewrite (deref_found preparedR l _ pa).
Qed.

(** C6, as the code has it.  A build result that is received is stored in
    the cache under the leaf hash it holds, whichever node is known valid
    by then, and no listener is called.  A turn of the ticker case hands to
    the listeners, as [AssertionPrepared], only copies of the entry stored
    under the hash of the node that is known valid: a result for a leaf
    that has been superseded is in the cache and is not handed out while
    the hash of the known-valid node is not the hash of that leaf. *)
Theorem stale_result_stored_not_surfaced :
  (forall (s : State) l pa rest,
     assertionPreparedChan (locals s) = Some l :: rest ->
     prepared (heap s) !! l = Some pa ->
     exists s',
       receiveCase s = Ok (tt, s') /\
       preparedAssertions (locals s')
       = <[leafHash pa := l]> (preparedAssertions (locals s)) /\
       events s' = events s /\ heap s' = heap s /\ chain s' = chain s /\
       (cache_keyed s -> cache_keyed s')) /\
  (forall fuel (s : State) b s',
     cache_keyed s ->
     tickerCase fuel s = Ok (b, s') ->
     forall lis c,
       AssertionPrepared lis c ∈ events s' ->
       AssertionPrepared lis c ∈ events s \/
       exists known ca,
         nodes (heap s') !! knownValidNode (chain s') = Some known /\
         prepared (heap s') !! c = Some ca /\
         leafHash ca = hash known).
Proof.
  split.
  - intros s l pa rest Hchan Hl. eexists. split.
    + by apply receiveCase_stores.
    + simpl. split_and!; try done.
      intros Hkeyed h l' pa' Hcache Hl'. simpl in Hcache, Hl'.
      destruct (decide (leafHash pa = h)) as [<-|Hne].
      * rewrite lookup_insert_eq in Hcache. congruence.
      * rewrite lookup_insert_ne in Hcache by done. by eapply Hkeyed.
  - intros fuel s b s' Hkeyed. unfold tickerCase. intros Hrun.
    apply bind_Ok in Hrun. destruct Hrun as (caughtUp & s1 & Hcatch & Hrun).
    apply catchUp_none_surfaced in Hcatch. destruct Hcatch as [Hnone Hkeyed1].
    destruct caughtUp; invert_run.
    + match goal with
      | H : prepareNext _ = Ok _ |- _ =>
          apply prepareNext_surfaces in H; [|by apply Hkeyed1];
          destruct H as (Hchain & Hnodes & Hin)
      end.
      intros lis c [Hold|(known & ca & Hknown & Hca & Hleaf)]%Hin.
      * left. by apply Hnone.
      * right. exists known, ca. by rewrite Hchain, Hnodes.
    + intros lis c Hin. left. by apply Hnone.
Qed.

(** * Further properties *)

(** ** What [getNodeOpinion] returns, by cases *)

Lemma getNodeOpinion_inv
    params claim prevPendingCount claimHeight messageStack messagesVal
    prevMach (s : State) ct ve s' :
  getNodeOpinion params claim prevPendingCount claimHeight
    messageStack messagesVal prevMach s = Ok ((ct, ve), s') ->
  (height_violated params prevPendingCount claimHeight /\
   ct = InvalidPendingChildType /\ ve = None /\ s' = s)
  \/
  (~ height_violated params prevPendingCount claimHeight /\
   messages_violated claim messageStack /\
   ct = InvalidMessagesChildType /\ ve = None /\ s' = s)
  \/
  (~ height_violated params prevPendingCount claimHeight /\
   ~ messages_violated claim messageStack /\
   exists m m' a stepsRun,
     machines (heap s) !! prevMach = Some m /\
     ExecuteAssertion m (NumSteps params) (ParamsTimeBounds params)
       messagesVal = (m', a, stepsRun) /\
     s' = afterRun s prevMach m' a /\
     ((stepsRun = NumSteps params /\ Stub a = ClaimAssertionStub claim /\
       ct = ValidChildType /\
       ve = Some (fresh (dom (assertions (heap s)))))
      \/
      (~ (stepsRun = NumSteps params /\ Stub a = ClaimAssertionStub claim) /\
       ct = InvalidExecutionChildType /\ ve = None))).
Proof.
  destruct (height_violated_dec params prevPendingCount claimHeight) as [Hh|Hh].
  { rewrite opinion_height by done. intros [= <- <- <-]. left. auto. }
  destruct (messages_violated_dec claim messageStack) as [Hm|Hm].
  { rewrite opinion_messages by done. intros [= <- <- <-]. right. left. auto. }
  destruct (machines (heap s) !! prevMach) as [m|] eqn:Hmach.
  - destruct (ExecuteAssertion m (NumSteps params) (ParamsTimeBounds params)
                messagesVal) as [[m' a] n] eqn:Hx.
    rewrite (opinion_executed _ _ _ _ _ _ _ s _ _ _ _ Hh Hm Hmach Hx).
    intros Hrun. right. right. split_and!; [done..|].
    exists m, m', a, n. case_decide as Hok.
    + injection Hrun as <- <- <-. split_and!; [done..|]. left.
      destruct Hok. by split_and!.
    + injection Hrun as <- <- <-. split_and!; [done..|]. right. by split_and!.
  - by rewrite (opinion_no_machine _ _ _ _ _ _ _ s).
Qed.

(** X1.  [getNodeOpinion] hands back an assertion exactly when it
    classifies the claim as valid, and that assertion is the one of the
    replay, with the claimed stub.  It reports an invalid message set
    exactly when the height check passes and the hash of the message range
    is not the claimed slice, and it runs the machine exactly when both of
    these checks pass. *)
Theorem getNodeOpinion_classification
    params claim prevPendingCount claimHeight messageStack messagesVal
    prevMach (s : State) ct ve s' :
  getNodeOpinion params claim prevPendingCount claimHeight
    messageStack messagesVal prevMach s = Ok ((ct, ve), s') ->
  (is_Some ve <-> ct = ValidChildType) /\
  (forall l, ve = Some l ->
     exists a, assertions (heap s') !! l = Some a /\
               assertions (heap s) !! l = None /\
               Stub a = ClaimAssertionStub claim) /\
  (ct = InvalidMessagesChildType <->
   ~ height_violated params prevPendingCount claimHeight /\
   messages_violated claim messageStack) /\
  (s' <> s ->
   ~ height_violated params prevPendingCount claimHeight /\
   ~ messages_violated claim messageStack) /\
  (~ height_violated params prevPendingCount claimHeight ->
   ~ messages_violated claim messageStack ->
   exists m m' a stepsRun,
     machines (heap s) !! prevMach = Some m /\
     ExecuteAssertion m (NumSteps params) (ParamsTimeBounds params)
       messagesVal = (m', a, stepsRun) /\
     machines (heap s') !! prevMach = Some m').
Proof.
  intros [(Hh & -> & -> & ->)
         |[(Hh & Hm & -> & -> & ->)
          |(Hh & Hm & m & m' & a & n & Hmach & Hx & -> & Hcase)]]%getNodeOpinion_inv.
  - split_and!; try done; try tauto; try (split; [done | tauto]).
  - split_and!; try done; try tauto; try (split; [done | tauto]).
  - assert (Hrun : exists m0 m1 a0 n0,
              machines (heap s) !! prevMach = Some m0 /\
              ExecuteAssertion m0 (NumSteps params) (ParamsTimeBounds params)
                messagesVal = (m1, a0, n0) /\
              machines (heap (afterRun s prevMach m' a)) !! prevMach = Some m1).
    { exists m, m', a, n. split_and!; [done..|]. simpl. apply lookup_insert_eq. }
    destruct Hcase as [(-> & Hstub & -> & ->) | (Hbad & -> & ->)].
    + split_and!; try done.
      * intros l [= <-]. exists a. split_and!; [|apply fresh_cell|done].
        simpl. apply lookup_insert_eq.
      * split; [done | tauto].
    + split_and!; try done; try tauto; try (split; [done | tauto]).
Qed.

(** ** Running a computation forward *)

Lemma bind_assoc {S A B C} (m : M S A) (k1 : A -> M S B) (k2 : B -> M S C) s :
  bind (bind m k1) k2 s = bind m (fun a => bind (k1 a) k2) s.
Proof. unfold bind. by destruct (m s) as [[a s1]|]. Qed.

Lemma bind_get {S A} (k : S -> M S A) s : bind get k s = k s s.
Proof. reflexivity. Qed.

Lemma bind_modify {S A} (f : S -> S) (k : unit -> M S A) s :
  bind (modify f) k s = k tt (f s).
Proof. reflexivity. Qed.

Lemma bind_ret {S A B} (a : A) (k : A -> M S B) s : bind (ret a) k s = k a s.
Proof. reflexivity. Qed.

Lemma bind_nonnil {S A B} (a : A) (k : A -> M S B) s :
  bind (nonnil (Some a)) k s = k a s.
Proof. reflexivity. Qed.

Lemma bind_deref {T A} (R : Region T) l (k : T -> M State A) (s : State) v :
  cells R (heap s) !! l = Some v -> bind (deref R l) k s = k v s.
Proof. intros Hl. unfold bind at 1. by rewrite (deref_found R l s v Hl). Qed.

Lemma bind_alloc {T A} (R : Region T) v (k : loc -> M State A) (s : State) :
  bind (alloc R v) k s
  = k (fresh (dom (cells R (heap s))))
      (set_heap (fun h =>
         with_cells R (<[fresh (dom (cells R (heap s))) := v]> (cells R h)) h) s).
Proof. reflexivity. Qed.

Lemma bind_assign {T A} (R : Region T) l v (k : unit -> M State A) (s : State) v0 :
  cells R (heap s) !! l = Some v0 ->
  bind (assign R l v) k s
  = k tt (set_heap (fun h => with_cells R (<[l := v]> (cells R h)) h) s).
Proof.
  intros Hl. unfold assign. rewrite bind_assoc, (bind_deref R l _ s v0 Hl).
  reflexivity.
Qed.

Lemma ret_run {S A} (a : A) (s : S) : ret a s = Ok (a, s).
Proof. reflexivity. Qed.

Lemma modify_run {S} (f : S -> S) (s : S) : modify f s = Ok (tt, f s).
Proof. reflexivity. Qed.

(** A cell that is there, after the stores made so far. *)
Ltac cell_there :=
  simpl; rewrite ?lookup_insert_eq;
  repeat (rewrite lookup_insert_ne by done);
  first [eassumption | reflexivity].

(** One step of a run whose head is a bind. *)
Ltac run_step :=
  first
    [ rewrite bind_assoc
    | rewrite bind_get
    | rewrite bind_modify
    | rewrite bind_ret
    | rewrite bind_nonnil
    | rewrite bind_alloc
    | erewrite bind_deref by cell_there
    | erewrite bind_assign by cell_there ];
  cbv beta.

(** ** What [updateCurrent] installs *)

Lemma adoptSuccessor_valid_run succs nextMachine validExecution
    (s : State) correctNode cn :
  nodeFromHash (chain s) !! succs ValidChildType = Some correctNode ->
  nodes (heap s) !! correctNode = Some cn ->
  adoptSuccessor succs ValidChildType nextMachine validExecution s
  = Ok (tt,
        {| heap :=
             with_cells nodeR
               (<[correctNode :=
                    with_assertion validExecution (with_machine nextMachine cn)]>
                  (nodes (heap s)))
               (heap s);
           chain := with_knownValidNode correctNode (chain s);
           locals := locals s;
           events :=
             (events s
              ++ map (fun lis =>
                        AdvancedKnownAssertion lis validExecution
                          (assertionTxHash cn))
                     (listeners (chain s)))
             ++ map (fun lis => AdvancedKnownValidNode lis (hash cn))
                    (listeners (chain s)) |}).
Proof.
  intros Hfound Hcn.
  unfold adoptSuccessor, notify, update_node.
  run_step. rewrite Hfound. rewrite bool_decide_eq_true_2 by done.
  repeat run_step. rewrite modify_run.
  unfold set_events, set_chain, set_heap. simpl.
  by rewrite insert_insert_eq.
Qed.

Lemma adoptSuccessor_invalid_run succs newOpinion nextMachine validExecution
    (s : State) correctNode cn known ml m :
  newOpinion <> ValidChildType ->
  nodeFromHash (chain s) !! succs newOpinion = Some correctNode ->
  nodes (heap s) !! correctNode = Some cn ->
  nodes (heap s) !! knownValidNode (chain s) = Some known ->
  machine known = Some ml ->
  machines (heap s) !! ml = Some m ->
  adoptSuccessor succs newOpinion nextMachine validExecution s
  = Ok (tt,
        {| heap :=
             with_cells nodeR
               (<[correctNode :=
                    with_machine (Some (fresh (dom (machines (heap s))))) cn]>
                  (nodes (heap s)))
               (with_cells machineR
                  (<[fresh (dom (machines (heap s))) := m]> (machines (heap s)))
                  (heap s));
           chain := with_knownValidNode correctNode (chain s);
           locals := locals s;
           events :=
             events s
             ++ map (fun lis => AdvancedKnownValidNode lis (hash cn))
                    (listeners (chain s)) |}).
Proof.
  intros Hne Hfound Hcn Hknown Hml Hm.
  unfold adoptSuccessor, notify, update_node, Machine_Clone.
  run_step. rewrite Hfound. rewrite bool_decide_eq_false_2 by done.
  run_step. run_step. run_step. run_step. rewrite Hml.
  repeat run_step. rewrite modify_run.
  unfold set_events, set_chain, set_heap. by simpl.
Qed.

Lemma successor_disputable_run l n d (s : State) :
  nodes (heap s) !! l = Some n -> disputable n = Some d ->
  successor_disputable (Some l) s = Ok (d, s).
Proof.
  intros Hn Hd. apply successor_disputable_Ok. split; [done|]. by exists l, n.
Qed.

Lemma cachedOpinion_hit cur sl sn d prepped pa (s : State) :
  preparedAssertions (locals s) !! hash cur = Some prepped ->
  prepared (heap s) !! prepped = Some pa ->
  nodes (heap s) !! sl = Some sn ->
  disputable sn = Some d ->
  paramsCells (heap s) !! params pa = Some (DisputableParams d) ->
  claimCells (heap s) !! claim pa = Some (DisputableClaim d) ->
  cachedOpinion cur (Some sl) s = Ok (Some pa, s).
Proof.
  intros Hcache Hpa Hsn Hd Hparams Hclaim. unfold cachedOpinion.
  run_step. rewrite Hcache. run_step.
  unfold bind at 1. rewrite (successor_disputable_run _ _ _ _ Hsn Hd).
  run_step. unfold AssertionParams_Equals.
  rewrite bool_decide_eq_true_2 by done.
  run_step. unfold AssertionClaim_Equals.
  by rewrite bool_decide_eq_true_2.
Qed.

Lemma formOpinion_cached cur succ pa (s : State) :
  cachedOpinion cur succ s = Ok (Some pa, s) ->
  formOpinion cur succ s
  = Ok ((ValidChildType, Some (pa_machine pa), Some (pa_assertion pa)), s).
Proof. intros Hhit. unfold formOpinion, bind. by rewrite Hhit. Qed.

(** The opinion formed by replay: the posted claim is classified on a copy
    of the machine of the current node. *)
Lemma formOpinion_replay cur sl sn d ml m (s : State) :
  cachedOpinion cur (Some sl) s = Ok (None, s) ->
  nodes (heap s) !! sl = Some sn ->
  disputable sn = Some d ->
  machine cur = Some ml ->
  machines (heap s) !! ml = Some m ->
  formOpinion cur (Some sl) s
  = bind
      (getNodeOpinion (DisputableParams d) (DisputableClaim d)
         (PendingCount (vmProtoData cur))
         (GetHeight (pendingInbox (chain s))
            (AfterPendingTop (DisputableClaim d)))
         (Substack (pendingInbox (chain s)) (PendingTop (vmProtoData cur))
            (AfterPendingTop (DisputableClaim d)))
         (ValueForSubseq (pendingInbox (chain s))
            (PendingTop (vmProtoData cur))
            (AfterPendingTop (DisputableClaim d)))
         (fresh (dom (machines (heap s)))))
      (fun r => ret (r.1, Some (fresh (dom (machines (heap s)))), r.2))
      (set_heap (fun h =>
         with_cells machineR
           (<[fresh (dom (machines (heap s))) := m]> (machines h)) h) s).
Proof.
  intros Hmiss Hsn Hd Hml Hm. unfold formOpinion.
  unfold bind at 1. rewrite Hmiss. run_step.
  unfold bind at 1. rewrite (successor_disputable_run _ _ _ _ Hsn Hd).
  rewrite Hml. run_step. run_step. unfold Machine_Clone.
  run_step. run_step. run_step. simpl chain.
  unfold bind. destruct (getNodeOpinion _ _ _ _ _ _ _ _) as [[[ct ve] s1]|];
    reflexivity.
Qed.

Lemma with_fields_same (n : Node) :
  with_machine (machine n) (with_assertion (assertion n) n) = n.
Proof. by destruct n. Qed.

Lemma adoptSuccessor_frame succs newOpinion nextMachine validExecution
    (s : State) u s' :
  adoptSuccessor succs newOpinion nextMachine validExecution s = Ok (u, s') ->
  locals s' = locals s /\
  with_knownValidNode (knownValidNode (chain s)) (chain s') = chain s /\
  bigInts (heap s') = bigInts (heap s) /\
  protoDatas (heap s') = protoDatas (heap s) /\
  paramsCells (heap s') = paramsCells (heap s) /\
  claimCells (heap s') = claimCells (heap s) /\
  prepared (heap s') = prepared (heap s) /\
  assertions (heap s') = assertions (heap s) /\
  machines (heap s) ⊆ machines (heap s') /\
  (forall l, l <> knownValidNode (chain s') ->
             nodes (heap s') !! l = nodes (heap s) !! l) /\
  (forall n, nodes (heap s) !! knownValidNode (chain s') = Some n ->
     exists n',
       nodes (heap s') !! knownValidNode (chain s') = Some n' /\
       with_machine (machine n) (with_assertion (assertion n) n') = n).
Proof.
  unfold adoptSuccessor. intros Hrun.
  apply bind_Ok in Hrun. destruct Hrun as (s0 & s1 & [-> ->]%get_Ok & Hrun).
  destruct (nodeFromHash (chain s) !! succs newOpinion) as [correctNode|].
  - unfold notify, update_node in Hrun.
    destruct (bool_decide (newOpinion = ValidChildType));
      invert_run; simpl in *; inserted_cells; simplify_eq; simpl.
    + split_and!; try done.
      * by destruct (chain s).
      * intros l Hl. by rewrite !lookup_insert_ne.
      * intros n Hn. simplify_eq. eexists. split; [apply lookup_insert_eq|].
        match goal with |- _ = ?x => by destruct x end.
    + split_and!; try done.
      * by destruct (chain s).
      * apply insert_subseteq, fresh_cell.
      * intros l Hl. by rewrite lookup_insert_ne.
      * intros n Hn. simplify_eq. eexists. split; [apply lookup_insert_eq|].
        match goal with |- _ = ?x => by destruct x end.
  - invert_run. split_and!; try done.
    + by destruct (chain s).
    + intros n Hn. exists n. split; [done | apply with_fields_same].
Qed.

(** X2.  Whatever it classifies and whether or not it moves the pointer, an
    invocation of [updateCurrent] that returns leaves both caches empty:
    the marks of the builds in flight and every prepared assertion are
    dropped.  The results waiting in the channel and the builds that were
    started stay as they were. *)
Theorem updateCurrent_resets_caches (s : State) u s' :
  updateCurrent s = Ok (u, s') ->
  preparingAssertions (locals s') = ∅ /\
  preparedAssertions (locals s') = ∅ /\
  assertionPreparedChan (locals s') = assertionPreparedChan (locals s) /\
  startedBuilds (locals s') = startedBuilds (locals s).
Proof.
  intros (cur & newOpinion & nm & ve & s1 & Hcur & Hform & Hadopt)%updateCurrent_Ok.
  pose proof (formOpinion_grows _ _ _ _ _ Hform) as (_ & Hlocals & _).
  apply adoptSuccessor_frame in Hadopt. destruct Hadopt as (Hlocals' & _).
  rewrite Hlocals'. simpl. by rewrite Hlocals.
Qed.

(** X3.  [updateCurrent] changes no object that was there before, except
    that it writes the [machine] and [assertion] fields of the node it
    adopts: every machine and every assertion of the state before is in
    the state after with the same contents, every other node is as it was,
    the adopted node keeps all its other fields, and of the chain observer
    only the known-valid pointer may differ. *)
Theorem updateCurrent_writes_only_adopted_node (s : State) u s' :
  updateCurrent s = Ok (u, s') ->
  with_knownValidNode (knownValidNode (chain s)) (chain s') = chain s /\
  machines (heap s) ⊆ machines (heap s') /\
  assertions (heap s) ⊆ assertions (heap s') /\
  bigInts (heap s') = bigInts (heap s) /\
  protoDatas (heap s') = protoDatas (heap s) /\
  paramsCells (heap s') = paramsCells (heap s) /\
  claimCells (heap s') = claimCells (heap s) /\
  prepared (heap s') = prepared (heap s) /\
  (forall l, l <> knownValidNode (chain s') ->
             nodes (heap s') !! l = nodes (heap s) !! l) /\
  (forall n, nodes (heap s) !! knownValidNode (chain s') = Some n ->
     exists n',
       nodes (heap s') !! knownValidNode (chain s') = Some n' /\
       with_machine (machine n) (with_assertion (assertion n) n') = n).
Proof.
  intros (cur & newOpinion & nm & ve & s1 & Hcur & Hform & Hadopt)%updateCurrent_Ok.
  pose proof (formOpinion_grows _ _ _ _ _ Hform)
    as (Hchain & _ & _ & Hb & Hp & Hq & Hc & Hpr & Hnodes & Hm & Ha).
  apply adoptSuccessor_frame in Hadopt. simpl in Hadopt.
  destruct Hadopt as (_ & Hchain' & Hb' & Hp' & Hq' & Hc' & Hpr' & Ha' & Hm'
                      & Hother & Hadopted).
  rewrite Hchain in Hchain'. rewrite Hnodes in Hother, Hadopted.
  split_and!; try congruence; try done.
  - by etrans.
  - by rewrite Ha'.
Qed.

(** X4.  The fast path.  When the cache holds a prepared assertion for the
    known-valid node whose parameters and claim equal those posted with
    the successor, [updateCurrent] classifies the successor as valid
    without running a machine: no machine and no assertion is allocated
    or changed.  The node in the slot for a valid child becomes known
    valid and receives the very machine and assertion pointers of the
    prepared assertion; every listener is told of the assertion and then
    of the new node, and the caches are emptied. *)
Theorem updateCurrent_adopts_cached
    (s : State) cur sl sn d prepped pa correctNode cn :
  nodes (heap s) !! knownValidNode (chain s) = Some cur ->
  firstSuccessor s cur = Some sl ->
  nodes (heap s) !! sl = Some sn ->
  disputable sn = Some d ->
  preparedAssertions (locals s) !! hash cur = Some prepped ->
  prepared (heap s) !! prepped = Some pa ->
  paramsCells (heap s) !! params pa = Some (DisputableParams d) ->
  claimCells (heap s) !! claim pa = Some (DisputableClaim d) ->
  nodeFromHash (chain s) !! successorHashes cur ValidChildType
  = Some correctNode ->
  nodes (heap s) !! correctNode = Some cn ->
  exists s',
    updateCurrent s = Ok (tt, s') /\
    knownValidNode (chain s') = correctNode /\
    nodes (heap s') !! correctNode
    = Some (with_assertion (Some (pa_assertion pa))
              (with_machine (Some (pa_machine pa)) cn)) /\
    machines (heap s') = machines (heap s) /\
    assertions (heap s') = assertions (heap s) /\
    preparedAssertions (locals s') = ∅ /\
    events s'
    = (events s
       ++ map (fun lis =>
                 AdvancedKnownAssertion lis (Some (pa_assertion pa))
                   (assertionTxHash cn))
              (listeners (chain s)))
      ++ map (fun lis => AdvancedKnownValidNode lis (hash cn))
             (listeners (chain s)).
Proof.
  intros Hcur Hsucc Hsn Hd Hcache Hpa Hparams Hclaim Hfound Hcn.
  pose proof (cachedOpinion_hit cur sl sn d prepped pa s
                Hcache Hpa Hsn Hd Hparams Hclaim) as Hhit.
  apply formOpinion_cached in Hhit. rewrite <- Hsucc in Hhit.
  eexists. split.
  - rewrite (updateCurrent_run _ _ _ _ _ _ Hcur Hhit).
    by apply adoptSuccessor_valid_run with (cn := cn).
  - simpl. split_and!; try done. apply lookup_insert_eq.
Qed.

(** X5.  Adoption after a replay that confirms the claim.  When nothing is
    cached for the known-valid node, the posted claim passes the height
    and message-set checks, and the replay of the node's machine runs the
    claimed steps and yields the claimed stub, [updateCurrent] moves the
    pointer to the node in the slot for a valid child and gives it the
    replayed copy of the machine and the assertion of the replay.  The
    machine of the node it leaves is in the state it was in. *)
Theorem updateCurrent_adopts_replayed
    (s : State) cur sl sn d ml m m' a correctNode cn :
  nodes (heap s) !! knownValidNode (chain s) = Some cur ->
  firstSuccessor s cur = Some sl ->
  nodes (heap s) !! sl = Some sn ->
  disputable sn = Some d ->
  preparedAssertions (locals s) !! hash cur = None ->
  machine cur = Some ml ->
  machines (heap s) !! ml = Some m ->
  let inbox := pendingInbox (chain s) in
  let before := PendingTop (vmProtoData cur) in
  let after := AfterPendingTop (DisputableClaim d) in
  ~ height_violated (DisputableParams d) (PendingCount (vmProtoData cur))
      (GetHeight inbox after) ->
  ~ messages_violated (DisputableClaim d) (Substack inbox before after) ->
  ExecuteAssertion m (NumSteps (DisputableParams d))
    (ParamsTimeBounds (DisputableParams d))
    (ValueForSubseq inbox before after)
  = (m', a, NumSteps (DisputableParams d)) ->
  Stub a = ClaimAssertionStub (DisputableClaim d) ->
  nodeFromHash (chain s) !! successorHashes cur ValidChildType
  = Some correctNode ->
  nodes (heap s) !! correctNode = Some cn ->
  exists s' c l,
    updateCurrent s = Ok (tt, s') /\
    knownValidNode (chain s') = correctNode /\
    nodes (heap s') !! correctNode
    = Some (with_assertion (Some l) (with_machine (Some c) cn)) /\
    machines (heap s) !! c = None /\
    machines (heap s') !! c = Some m' /\
    machines (heap s') !! ml = Some m /\
    assertions (heap s) !! l = None /\
    assertions (heap s') !! l = Some a /\
    events s'
    = (events s
       ++ map (fun lis =>
                 AdvancedKnownAssertion lis (Some l) (assertionTxHash cn))
              (listeners (chain s)))
      ++ map (fun lis => AdvancedKnownValidNode lis (hash cn))
             (listeners (chain s)).
Proof.
  intros Hcur Hsucc Hsn Hd Hmiss Hml Hm inbox before after Hh Hmsg Hx Hstub
    Hfound Hcn.
  subst inbox before after.
  set (c := fresh (dom (machines (heap s)))).
  set (s0 := set_heap (fun h =>
               with_cells machineR (<[c := m]> (machines h)) h) s).
  assert (Hc : machines (heap s0) !! c = Some m) by apply lookup_insert_eq.
  assert (Hform : formOpinion cur (firstSuccessor s cur) s
                  = Ok ((ValidChildType, Some c,
                         Some (fresh (dom (assertions (heap s))))),
                        afterRun s0 c m' a)).
  { rewrite Hsucc.
    rewrite (formOpinion_replay cur sl sn d ml m s
               (cachedOpinion_miss _ _ _ Hmiss) Hsn Hd Hml Hm).
    fold c s0. unfold bind.
    rewrite (opinion_executed _ _ _ _ _ _ _ s0 m m' a _ Hh Hmsg Hc Hx).
    by rewrite decide_True. }
  exists (* s' *)
    {| heap :=
         with_cells nodeR
           (<[correctNode :=
                with_assertion (Some (fresh (dom (assertions (heap s))))) 
                  (with_machine (Some c) cn)]> (nodes (heap s)))
           (heap (afterRun s0 c m' a));
       chain := with_knownValidNode correctNode (chain s);
       locals := with_preparedAssertions ∅ (with_preparing ∅ (locals s));
       events :=
         (events s
          ++ map (fun lis =>
                    AdvancedKnownAssertion lis
                      (Some (fresh (dom (assertions (heap s)))))
                      (assertionTxHash cn))
                 (listeners (chain s)))
         ++ map (fun lis => AdvancedKnownValidNode lis (hash cn))
                (listeners (chain s)) |},
    c, (fresh (dom (assertions (heap s)))).
  split.
  - rewrite (updateCurrent_run _ _ _ _ _ _ Hcur Hform).
    by rewrite (adoptSuccessor_valid_run _ _ _ _ correctNode cn).
  - simpl. split_and!; try done.
    + apply lookup_insert_eq.
    + apply fresh_cell.
    + apply lookup_insert_eq.
    + rewrite lookup_insert_ne by (apply fresh_ne with m; done).
      by rewrite lookup_insert_ne by (apply fresh_ne with m; done).
    + apply fresh_cell.
    + apply lookup_insert_eq.
Qed.

Lemma formOpinion_nextMachine cur succ (s : State) newOpinion nm ve s1 :
  formOpinion cur succ s = Ok ((newOpinion, nm, ve), s1) ->
  newOpinion <> ValidChildType ->
  exists c, nm = Some c /\ is_Some (machines (heap s1) !! c).
Proof.
  unfold formOpinion. intros Hrun Hne. invert_run.
  match goal with
  | H : cachedOpinion _ _ _ = Ok _ |- _ => apply cachedOpinion_same in H; subst
  end.
  match goal with
  | H : match ?hit with Some _ => _ | None => _ end _ = Ok _ |- _ =>
      destruct hit
  end; invert_run; [by simplify_eq|].
  unfold successor_disputable in *. invert_run.
  match goal with
  | H : getNodeOpinion _ _ _ _ _ _ _ _ = Ok (?r, _) |- _ =>
      destruct r as [ct ve0];
      apply getNodeOpinion_effect in H;
      destruct H as [[_ ->] | (_ & _ & m0 & m1 & a0 & n0 & _ & _ & ->)]
  end; invert_run; simplify_eq; eexists; (split; [reflexivity|]); simpl;
    rewrite lookup_insert_eq; eauto.
Qed.

(** X6.  Adoption under a classification other than valid.  The node in
    the slot of the classification becomes known valid and receives a new
    machine in the state of the machine of the node left behind; the copy
    that the classification may have run is not the one it gets.  Its
    [assertion] field is not written, and the listeners are told of the new
    node only. *)
Theorem updateCurrent_adopts_invalid
    (s : State) cur newOpinion nextMachine validExecution s1 ml m
    correctNode cn :
  nodes (heap s) !! knownValidNode (chain s) = Some cur ->
  formOpinion cur (firstSuccessor s cur) s
  = Ok ((newOpinion, nextMachine, validExecution), s1) ->
  newOpinion <> ValidChildType ->
  machine cur = Some ml ->
  machines (heap s) !! ml = Some m ->
  nodeFromHash (chain s) !! successorHashes cur newOpinion
  = Some correctNode ->
  nodes (heap s) !! correctNode = Some cn ->
  exists s' c,
    updateCurrent s = Ok (tt, s') /\
    knownValidNode (chain s') = correctNode /\
    nodes (heap s') !! correctNode = Some (with_machine (Some c) cn) /\
    machines (heap s1) !! c = None /\
    nextMachine <> Some c /\
    machines (heap s') !! c = Some m /\
    machines (heap s') !! ml = Some m /\
    assertions (heap s') = assertions (heap s1) /\
    events s'
    = events s
      ++ map (fun lis => AdvancedKnownValidNode lis (hash cn))
             (listeners (chain s)).
Proof.
  intros Hcur Hform Hne Hml Hm Hfound Hcn.
  pose proof (formOpinion_grows _ _ _ _ _ Hform)
    as (Hchain & Hlocals & Hevents & _ & _ & _ & _ & _ & Hnodes & Hsub & _).
  pose proof (lookup_weaken _ _ _ _ Hm Hsub) as Hm1.
  set (t := set_locals (fun l =>
              with_preparedAssertions ∅ (with_preparing ∅ l)) s1).
  pose proof (adoptSuccessor_invalid_run (successorHashes cur) newOpinion
                nextMachine validExecution t correctNode cn cur ml m Hne)
    as Hrun.
  simpl in Hrun. rewrite Hchain, Hnodes in Hrun.
  specialize (Hrun Hfound Hcn Hcur Hml Hm1).
  eexists _, (fresh (dom (machines (heap s1)))). split.
  - rewrite (updateCurrent_run _ _ _ _ _ _ Hcur Hform). exact Hrun.
  - simpl. split_and!; try done.
    + apply lookup_insert_eq.
    + apply fresh_cell.
    + intros ->.
      destruct (formOpinion_nextMachine _ _ _ _ _ _ _ Hform Hne)
        as (c & [= <-] & Hin).
      rewrite fresh_cell in Hin. by destruct Hin.
    + apply lookup_insert_eq.
    + rewrite lookup_insert_ne by (apply fresh_ne with m; done). done.
    + by rewrite Hevents.
Qed.

(** ** The catch-up loop as a walk *)

Lemma same_shape_refl (s : State) : same_shape s s.
Proof. intros l n Hn. by exists n. Qed.

Lemma same_shape_trans (s1 s2 s3 : State) :
  same_shape s1 s2 -> same_shape s2 s3 -> same_shape s1 s3.
Proof.
  intros H12 H23 l n Hn.
  destruct (H12 _ _ Hn) as (n2 & Hn2 & Hh2 & Hs2).
  destruct (H23 _ _ Hn2) as (n3 & Hn3 & Hh3 & Hs3).
  exists n3. split_and!; congruence.
Qed.

Lemma depth_from_app (s : State) a b c d1 d2 :
  depth_from s a b d1 -> depth_from s b c d2 -> depth_from s a c (d1 + d2).
Proof.
  intros Hab. induction 1 as [|l l' n n' d _ IH Hl Hl' Hsucc].
  - by rewrite Nat.add_0_r.
  - rewrite Nat.add_succ_r. by eapply depth_step.
Qed.

Lemma updateCurrent_walk (s : State) u s' :
  keys_consistent s ->
  updateCurrent s = Ok (u, s') ->
  keys_consistent s' /\
  same_shape s s' /\
  exists d,
    d <= 1 /\
    depth_from s' (knownValidNode (chain s)) (knownValidNode (chain s')) d.
Proof.
  intros Hkeys (cur & newOpinion & nm & ve & s1 & Hcur & Hform & Hadopt)%updateCurrent_Ok.
  pose proof (formOpinion_grows _ _ _ _ _ Hform)
    as (Hchain & _ & _ & _ & _ & _ & _ & _ & Hnodes & _ & _).
  destruct (nodeFromHash (chain s) !! successorHashes cur newOpinion)
    as [correctNode|] eqn:Hlookup.
  - apply adoptSuccessor_found with (correctNode := correctNode) in Hadopt;
      [|simpl; by rewrite Hchain].
    destruct Hadopt as (Hknown & Hgraph & cn & next & Hcn & Hnodes' & Hhash
                        & Hsuccs).
    simpl in Hcn, Hnodes', Hgraph. rewrite Hnodes in Hcn, Hnodes'.
    rewrite Hchain in Hgraph.
    pose proof (same_shape_insert s s' _ _ _ Hcn Hnodes' Hhash Hsuccs)
      as Hshape.
    split_and!; [|done|].
    + intros h l n Hh Hl. rewrite Hgraph in Hh. rewrite Hnodes' in Hl.
      destruct (decide (correctNode = l)) as [<-|Hne].
      * rewrite lookup_insert_eq in Hl. injection Hl as <-.
        rewrite Hhash. by eapply Hkeys.
      * rewrite lookup_insert_ne in Hl by done. by eapply Hkeys.
    + exists 1. split; [done|]. rewrite Hknown.
      destruct (Hshape _ _ Hcur) as (cur' & Hcur' & Hh' & Hs').
      eapply depth_step; [constructor | exact Hcur' | |].
      * rewrite Hnodes'. apply lookup_insert_eq.
      * exists newOpinion. rewrite Hs', Hhash. symmetry.
        by apply (Hkeys _ correctNode).
  - rewrite adoptSuccessor_missing in Hadopt by (simpl; by rewrite Hchain).
    injection Hadopt as <- <-. split_and!.
    + intros h l n Hh Hl. simpl in Hh, Hl. rewrite Hchain in Hh.
      rewrite Hnodes in Hl. by eapply Hkeys.
    + intros l n Hn. exists n. simpl. by rewrite Hnodes.
    + exists 0. split; [lia|]. simpl. rewrite Hchain. constructor.
Qed.

(** X7.  The catch-up loop only walks forward.  In a graph that files every
    node under its own hash, the node that is known valid when the loop
    stops is reached from the one it started at by successor steps, at
    most one per round; no node changes its hash or its successor hashes
    on the way.  The loop stops by itself only on a leaf, and when the
    bound on its rounds runs out it stands on a node that is not a leaf. *)
Theorem catchUp_walks_forward fuel :
  forall (s : State) b s',
    keys_consistent s ->
    catchUp fuel s = Ok (b, s') ->
    keys_consistent s' /\
    same_shape s s' /\
    (exists d,
       d <= fuel /\
       depth_from s' (knownValidNode (chain s)) (knownValidNode (chain s')) d) /\
    exists known,
      nodes (heap s') !! knownValidNode (chain s') = Some known /\
      IsLeaf s' known = b.
Proof.
  induction fuel as [|fuel IH]; intros s b s' Hkeys Hrun; simpl in Hrun;
    invert_run.
  - destruct (IsLeaf _ _) eqn:Hleaf; invert_run;
      (split_and!; [done | apply same_shape_refl | | by eexists]);
      exists 0; (split; [lia | constructor]).
  - destruct (IsLeaf _ _) eqn:Hleaf; invert_run.
    + split_and!; [done | apply same_shape_refl | | by eexists].
      exists 0. split; [lia | constructor].
    + match goal with
      | H : updateCurrent _ = Ok _ |- _ =>
          apply updateCurrent_walk in H; [|done];
          destruct H as (Hkeys1 & Hshape1 & d1 & Hd1 & Hstep)
      end.
      apply IH in Hrun; [|done].
      destruct Hrun as (Hkeys' & Hshape' & (d2 & Hd2 & Hwalk) & Hknown).
      split_and!; [done | by eapply same_shape_trans | | done].
      exists (d1 + d2). split; [lia|].
      eapply depth_from_app; [|exact Hwalk].
      by eapply depth_from_same_shape.
Qed.

(** ** Starting builds and handing out results *)

Lemma notifyPrepared_frame pa ls (s : State) u s' :
  notifyPrepared pa ls s = Ok (u, s') ->
  chain s' = chain s /\ locals s' = locals s /\
  nodes (heap s') = nodes (heap s) /\
  machines (heap s') = machines (heap s) /\
  assertions (heap s') = assertions (heap s).
Proof.
  revert s. induction ls as [|l ls IH]; intros s Hrun; simpl in Hrun.
  - by invert_run.
  - apply bind_Ok in Hrun. destruct Hrun as (c & s1 & Hclone & Hrun).
    apply Clone_Ok in Hclone.
    destruct Hclone as (p & v & b & q & cl & _ & _ & _ & _ & _ & _ & Hheap
                        & Hchain & Hlocals & _).
    invert_run. apply IH in Hrun. simpl in Hrun.
    destruct Hrun as (-> & -> & -> & -> & ->). rewrite Hheap. by simpl.
Qed.

Lemma prepareNext_marked (s : State) known u s' :
  nodes (heap s) !! knownValidNode (chain s) = Some known ->
  is_Some (preparingAssertions (locals s) !! hash known) ->
  prepareNext s = Ok (u, s') ->
  chain s' = chain s /\ locals s' = locals s /\
  nodes (heap s') = nodes (heap s) /\
  machines (heap s') = machines (heap s).
Proof.
  intros Hknown [b Hmark]. unfold prepareNext.
  run_step. run_step. rewrite Hmark.
  destruct (preparedAssertions _ !! _); [|by intros [= _ <-]].
  destruct (IsLeaf _ _); [|by intros [= _ <-]].
  intros Hrun. apply notifyPrepared_frame in Hrun. tauto.
Qed.

(** X8.  At most one build is started per leaf.  A turn of the ticker
    starts a build only for a known-valid node whose hash is not marked as
    being prepared and whose machine is not blocked, and it marks the hash
    as it does so; the turn that follows, the pointer being where it was,
    starts no build and leaves the marks as they are. *)
Theorem prepareNext_one_build_per_leaf (s : State) u1 s1 u2 s2 :
  prepareNext s = Ok (u1, s1) ->
  prepareNext s1 = Ok (u2, s2) ->
  (locals s1 = locals s \/
   exists known ml m,
     nodes (heap s) !! knownValidNode (chain s) = Some known /\
     preparingAssertions (locals s) !! hash known = None /\
     machine known = Some ml /\
     machines (heap s) !! ml = Some m /\
     IsMachineBlocked m (latestBlockNumber (chain s))
       (negb (PendingTop (vmProtoData known)
              =? GetTopHash (pendingInbox (chain s)))%N) = false /\
     preparingAssertions (locals s1)
     = <[hash known := true]> (preparingAssertions (locals s)) /\
     startedBuilds (locals s1) = S (startedBuilds (locals s))) /\
  startedBuilds (locals s2) = startedBuilds (locals s1) /\
  preparingAssertions (locals s2) = preparingAssertions (locals s1).
Proof.
  intros Hfirst Hsecond. pose proof Hfirst as Hrun.
  unfold prepareNext in Hrun. invert_run.
  match goal with
  | H : _ !! knownValidNode (chain s) = Some ?n |- _ =>
      rename n into known, H into Hknown; simpl in Hknown
  end.
  destruct (preparingAssertions (locals s) !! hash known) as [b|] eqn:Hmark.
  - clear Hrun.
    destruct (prepareNext_marked s known _ _ Hknown (ex_intro _ b Hmark) Hfirst)
      as (Hchain & Hlocals & Hnodes & _).
    destruct (prepareNext_marked s1 known u2 s2) as (_ & -> & _); try done.
    + by rewrite Hchain, Hnodes.
    + rewrite Hlocals. eauto.
    + split_and!; [by left | done..].
  - invert_run.
    destruct (IsMachineBlocked _ _ _) eqn:Hblocked; simpl in Hrun; invert_run.
    + rewrite Hfirst in Hsecond. injection Hsecond as _ <-.
      split_and!; [by left | done..].
    + match type of Hsecond with
      | prepareNext ?t = _ =>
          destruct (prepareNext_marked t known u2 s2 Hknown) as (_ & -> & _);
            [simpl; rewrite lookup_insert_eq; eauto | exact Hsecond |]
      end.
      split_and!; [|done..]. right. exists known. eexists _, _.
      split_and!; try done; eassumption.
Qed.

Lemma valueOf_mono (h h' : Heap) x v :
  prepared h ⊆ prepared h' ->
  bigInts h ⊆ bigInts h' ->
  protoDatas h ⊆ protoDatas h' ->
  paramsCells h ⊆ paramsCells h' ->
  claimCells h ⊆ claimCells h' ->
  assertions h' = assertions h ->
  machines h' = machines h ->
  valueOf h x = Some v -> valueOf h' x = Some v.
Proof.
  intros Hp Hb Hpd Hq Hc Ha Hm. unfold valueOf.
  intros (p & Hpx & (d & Hd & (b & Hbx & (q & Hqx & (c & Hcx & Hv)%bind_Some)
                                %bind_Some)%bind_Some)%bind_Some)%bind_Some.
  rewrite (lookup_weaken _ _ _ _ Hpx Hp). simpl.
  rewrite (lookup_weaken _ _ _ _ Hd Hb). simpl.
  rewrite (lookup_weaken _ _ _ _ Hbx Hpd). simpl.
  rewrite (lookup_weaken _ _ _ _ Hqx Hq). simpl.
  rewrite (lookup_weaken _ _ _ _ Hcx Hc). simpl.
  by rewrite Ha, Hm.
Qed.

Lemma Clone_values pa (s : State) c s' :
  Clone pa s = Ok (c, s') ->
  prepared (heap s) !! c = None /\
  is_Some (valueOf (heap s) pa) /\
  valueOf (heap s') c = valueOf (heap s) pa /\
  events s' = events s /\
  prepared (heap s) ⊆ prepared (heap s') /\
  (forall x v, valueOf (heap s) x = Some v -> valueOf (heap s') x = Some v).
Proof.
  intros (p & v & b & q & cl & Hp & Hv & Hb & Hq & Hcl & -> & Hheap & _ & _
          & Hevents)%Clone_Ok.
  pose proof (fresh_ne _ _ _ Hp) as Np.
  rewrite Hheap. clear Hheap.
  set (clone := {| leafHash := leafHash p; pa_machine := pa_machine p |}).
  split_and!.
  - apply fresh_cell.
  - unfold valueOf. rewrite Hp; simpl. rewrite Hv; simpl. rewrite Hb; simpl.
    rewrite Hq; simpl. rewrite Hcl; simpl. eauto.
  - eapply (valueOf_eq _ _ _ _ clone p); cells_lookup; congruence.
  - done.
  - apply insert_subseteq, fresh_cell.
  - intros y w. apply valueOf_mono; simpl; try done;
      apply insert_subseteq, fresh_cell.
Qed.

Lemma notifyPrepared_clones pa ls (s : State) u s' :
  notifyPrepared pa ls s = Ok (u, s') ->
  (forall x v, valueOf (heap s) x = Some v -> valueOf (heap s') x = Some v) /\
  prepared (heap s) ⊆ prepared (heap s') /\
  exists cs,
    length cs = length ls /\
    events s' = events s ++ zip_with AssertionPrepared ls cs /\
    NoDup cs /\
    Forall (fun c =>
              prepared (heap s) !! c = None /\
              is_Some (valueOf (heap s') c) /\
              valueOf (heap s') c = valueOf (heap s) pa) cs.
Proof.
  revert s. induction ls as [|l ls IH]; intros s Hrun; simpl in Hrun.
  - invert_run. split_and!; [done..|]. exists []. split_and!; try done.
    + by rewrite app_nil_r.
    + constructor.
  - apply bind_Ok in Hrun. destruct Hrun as (c & s1 & Hclone & Hrun).
    apply Clone_values in Hclone.
    destruct Hclone as (Hfresh & [v Hv] & Hc & Hevents & Hsub & Hkeep).
    invert_run. apply IH in Hrun. simpl in Hrun.
    destruct Hrun as (Hkeep' & Hsub' & cs & Hlen & Hevents' & Hnodup & Hall).
    split_and!.
    + intros y w Hy. by apply Hkeep', Hkeep.
    + by etrans.
    + exists (c :: cs). split_and!.
      * simpl. by rewrite Hlen.
      * rewrite Hevents', Hevents. simpl. by rewrite <- app_assoc.
      * constructor; [|done]. intros Hin.
        rewrite Forall_forall in Hall. destruct (Hall _ Hin) as (Hnone & _).
        rewrite Hv in Hc. unfold valueOf in Hc. apply bind_Some in Hc.
        destruct Hc as (p & Hp & _). congruence.
      * constructor.
        -- split_and!; [done | |].
           ++ exists v. apply Hkeep'. by rewrite Hc.
           ++ rewrite Hv. apply Hkeep'. by rewrite Hc.
        -- eapply Forall_impl; [exact Hall|]. simpl.
           intros y (Hnone & Hsome & Hval). split_and!; [|done|].
           ++ by eapply lookup_weaken_None.
           ++ rewrite Hval. specialize (Hkeep pa v Hv). congruence.
Qed.

(** X9.  What the listeners are handed.  When the hash of the known-valid
    leaf is marked and a prepared assertion is cached for it, a turn of the
    ticker calls [AssertionPrepared] once on every listener, in the order
    of the listeners, each time with a copy made for that call: the copies
    are new objects, different from one another and from the cached one,
    and each holds what the cached one holds.  The cached assertion is in
    the state after as it was, and the variables of the loop are
    unchanged. *)
Theorem prepareNext_hands_out_copies (s : State) known mark prepped u s' :
  nodes (heap s) !! knownValidNode (chain s) = Some known ->
  preparingAssertions (locals s) !! hash known = Some mark ->
  preparedAssertions (locals s) !! hash known = Some prepped ->
  IsLeaf s known = true ->
  prepareNext s = Ok (u, s') ->
  locals s' = locals s /\
  exists cs,
    length cs = length (listeners (chain s)) /\
    events s'
    = events s ++ zip_with AssertionPrepared (listeners (chain s)) cs /\
    NoDup cs /\
    (prepped ∉ cs) /\
    (forall c, c ∈ cs ->
       prepared (heap s) !! c = None /\
       valueOf (heap s') c = valueOf (heap s) prepped) /\
    (listeners (chain s) <> [] ->
     valueOf (heap s') prepped = valueOf (heap s) prepped).
Proof.
  intros Hknown Hmark Hcache Hleaf Hrun.
  destruct (prepareNext_marked s known u s' Hknown (ex_intro _ mark Hmark) Hrun)
    as (_ & Hlocals & _).
  split; [done|].
  unfold prepareNext in Hrun. revert Hrun.
  run_step. run_step. rewrite Hmark, Hcache, Hleaf. intros Hrun.
  pose proof Hrun as Hfirst.
  apply notifyPrepared_clones in Hrun.
  destruct Hrun as (Hkeep & Hsub & cs & Hlen & Hevents & Hnodup & Hall).
  rewrite Forall_forall in Hall.
  exists cs. split_and!; try done.
  - intros Hin. destruct (Hall _ Hin) as (Hnone & [v Hv] & Hval).
    rewrite Hval in Hv. unfold valueOf in Hv. apply bind_Some in Hv.
    destruct Hv as (p & Hp & _). congruence.
  - intros c Hin. destruct (Hall _ Hin) as (Hnone & _ & Hval). by split.
  - intros Hls. destruct (listeners (chain s)) as [|l ls]; [done|].
    simpl in Hfirst. apply bind_Ok in Hfirst.
    destruct Hfirst as (c & s1 & Hclone & _).
    apply Clone_values in Hclone. destruct Hclone as (_ & [v Hv] & _).
    rewrite Hv. by apply Hkeep.
Qed.

(** ** Builds *)

(** A map with cells stored at addresses that were not in use holds the
    cells it held. *)
Ltac grown :=
  repeat first
    [ done
    | apply insert_subseteq_r; [apply fresh_cell|]
    | apply insert_subseteq, fresh_cell ].

(** X10.  A build only allocates.  [prepareAssertion] leaves the chain
    observer, the nodes, the variables of the loop and the calls on the
    listeners as they are, and every object of the state before is in the
    state after with the same contents: in particular the machine of the
    leaf is not run.  The prepared assertion it returns, and the objects
    its six pointers lead to, are all new. *)
Theorem prepareAssertion_only_allocates (s : State) r s' :
  prepareAssertion s = Ok (r, s') ->
  chain s' = chain s /\ locals s' = locals s /\ events s' = events s /\
  nodes (heap s') = nodes (heap s) /\
  bigInts (heap s) ⊆ bigInts (heap s') /\
  protoDatas (heap s) ⊆ protoDatas (heap s') /\
  paramsCells (heap s) ⊆ paramsCells (heap s') /\
  claimCells (heap s) ⊆ claimCells (heap s') /\
  assertions (heap s) ⊆ assertions (heap s') /\
  machines (heap s) ⊆ machines (heap s') /\
  prepared (heap s) ⊆ prepared (heap s') /\
  forall p, r = Some p ->
    prepared (heap s) !! p = None /\
    exists pa,
      prepared (heap s') !! p = Some pa /\
      bigInts (heap s) !! prevDeadline pa = None /\
      protoDatas (heap s) !! beforeState pa = None /\
      paramsCells (heap s) !! params pa = None /\
      claimCells (heap s) !! claim pa = None /\
      assertions (heap s) !! pa_assertion pa = None /\
      machines (heap s) !! pa_machine pa = None.
Proof.
  unfold prepareAssertion. intros Hrun. invert_run.
  destruct (IsLeaf _ _); simpl in Hrun.
  - invert_run. simpl in *. inserted_cells.
    match goal with
    | H : (let '(_, _) := ?pc in _) _ = Ok _ |- _ => destruct pc
    end.
    match goal with
    | H : (if DidInboxInsn ?a then _ else _) _ = Ok _ |- _ =>
        destruct (DidInboxInsn a) eqn:Hinbox
    end; invert_run; simpl in *; simplify_eq;
      (split_and!; [grown..|]; intros p [= <-];
       split; [apply fresh_cell|]; eexists;
       split; [apply lookup_insert_eq|]; simpl;
       split_and!; apply fresh_cell).
  - invert_run. simpl. split_and!; [grown..|]. by intros p.
Qed.

Lemma bind_run {S A B} (m : M S A) (k : A -> M S B) s a s1 :
  m s = Ok (a, s1) -> bind m k s = k a s1.
Proof. intros Hm. unfold bind. by rewrite Hm. Qed.

(** On a leaf whose machine is there the build returns a prepared
    assertion: a new struct that holds the hashes, the link type, the
    deadline and the VM state of the leaf. *)
Lemma prepareAssertion_on_leaf (s : State) leaf mach m :
  nodes (heap s) !! knownValidNode (chain s) = Some leaf ->
  IsLeaf s leaf = true ->
  machine leaf = Some mach ->
  machines (heap s) !! mach = Some m ->
  exists p pa s',
    prepareAssertion s = Ok (Some p, s') /\
    chain s' = chain s /\ locals s' = locals s /\ events s' = events s /\
    prepared (heap s) !! p = None /\
    prepared (heap s') = <[p := pa]> (prepared (heap s)) /\
    leafHash pa = hash leaf /\
    prevPrevLeafHash pa = prevHash leaf /\
    prevDataHash pa = nodeDataHash leaf /\
    prevChildType pa = linkType leaf /\
    bigInts (heap s') !! prevDeadline pa = Some (deadline leaf) /\
    protoDatas (heap s') !! beforeState pa = Some (vmProtoData leaf).
Proof.
  intros Hleaf Hisleaf Hmach Hm. unfold prepareAssertion.
  do 4 run_step. rewrite Hisleaf. cbn [negb].
  run_step. rewrite Hmach. do 2 run_step.
  erewrite (bind_run (Machine_Clone mach))
    by (apply Machine_Clone_run; cell_there).
  match goal with
  | |- context [Machine_ExecuteAssertion ?l ?a ?b ?c] =>
      destruct (ExecuteAssertion m a b c) as [[m' a'] stepsRun] eqn:Hx;
      erewrite (bind_run (Machine_ExecuteAssertion l a b c))
        by (eapply Machine_ExecuteAssertion_run; [cell_there | exact Hx])
  end.
  cbv beta iota. unfold afterRun. run_step.
  destruct (DidInboxInsn a'); repeat run_step; cbv beta iota;
    repeat run_step; rewrite ret_run;
    (do 3 eexists; split; [reflexivity|]; simpl;
     split_and!; try done; try apply fresh_cell; apply lookup_insert_eq).
Qed.

(** X11.  From build to cache.  A build that runs while the known-valid
    node is a leaf with its machine does not fail, and once its result is
    received the cache holds, under the hash of that leaf (the key the
    ticker case looks up), a new prepared assertion that records the leaf:
    its hash, the hash before it, its data hash, its link type, and copies
    of its deadline and VM state.  The channel is empty again; the marks of
    builds under way, the chain observer, the nodes and the calls on the
    listeners are as before. *)
Theorem build_result_filed_under_leaf (s : State) leaf mach m :
  assertionPreparedChan (locals s) = [] ->
  nodes (heap s) !! knownValidNode (chain s) = Some leaf ->
  IsLeaf s leaf = true ->
  machine leaf = Some mach ->
  machines (heap s) !! mach = Some m ->
  exists p pa s',
    (buildGoroutine ;;; receiveCase) s = Ok (tt, s') /\
    prepared (heap s) !! p = None /\
    prepared (heap s') !! p = Some pa /\
    preparedAssertions (locals s')
    = <[hash leaf := p]> (preparedAssertions (locals s)) /\
    leafHash pa = hash leaf /\
    prevPrevLeafHash pa = prevHash leaf /\
    prevDataHash pa = nodeDataHash leaf /\
    prevChildType pa = linkType leaf /\
    bigInts (heap s') !! prevDeadline pa = Some (deadline leaf) /\
    protoDatas (heap s') !! beforeState pa = Some (vmProtoData leaf) /\
    assertionPreparedChan (locals s') = [] /\
    preparingAssertions (locals s') = preparingAssertions (locals s) /\
    chain s' = chain s /\ events s' = events s.
Proof.
  intros Hchan Hleaf Hisleaf Hmach Hm.
  destruct (prepareAssertion_on_leaf s leaf mach m Hleaf Hisleaf Hmach Hm)
    as (p & pa & s1 & Hbuild & Hchain & Hlocals & Hevents & Hnew & Hprep &
        Hhash & Hprev & Hdata & Hlink & Hdeadline & Hstate).
  exists p, pa. eexists. split.
  - unfold buildGoroutine. rewrite bind_assoc.
    rewrite (bind_run _ _ _ _ _ Hbuild), bind_modify.
    apply (receiveCase_stores _ p pa []).
    + simpl. by rewrite Hlocals, Hchan.
    + simpl. rewrite Hprep. apply lookup_insert_eq.
  - simpl. rewrite Hprep, Hlocals, Hhash.
    split_and!; try done. apply lookup_insert_eq.
Qed.

(** X12.  A build that runs after the known-valid node has stopped being a
    leaf sends nil on the channel, and the receive case, which reads the
    [leafHash] of what it receives, fails on it. *)
Theorem build_after_successor_fails_receive (s : State) cur :
  assertionPreparedChan (locals s) = [] ->
  nodes (heap s) !! knownValidNode (chain s) = Some cur ->
  IsLeaf s cur = false ->
  (exists s1,
     buildGoroutine s = Ok (tt, s1) /\
     assertionPreparedChan (locals s1) = [None] /\
     preparedAssertions (locals s1) = preparedAssertions (locals s)) /\
  (buildGoroutine ;;; receiveCase) s = Panic.
Proof.
  intros Hchan Hcur Hleaf.
  destruct (prepareAssertion_not_leaf s cur Hcur Hleaf)
    as (s1 & Hbuild & _ & Hlocals & _).
  split.
  - eexists. split.
    + unfold buildGoroutine. rewrite (bind_run _ _ _ _ _ Hbuild).
      apply modify_run.
    + simpl. by rewrite Hlocals, Hchan.
  - unfold buildGoroutine. rewrite bind_assoc.
    rewrite (bind_run _ _ _ _ _ Hbuild), bind_modify.
    apply (receiveCase_nil _ []). simpl. by rewrite Hlocals, Hchan.
Qed.

(** ** What no step of the thread does *)

Lemma up_to_run_refl n : up_to_run n n.
Proof. by destruct n. Qed.

Lemma up_to_run_trans n1 n2 n3 :
  up_to_run n1 n2 -> up_to_run n2 n3 -> up_to_run n1 n3.
Proof.
  unfold up_to_run. destruct n1, n2, n3; simpl.
  intros [= -> -> -> -> -> -> -> -> ->] [= -> -> -> -> -> -> -> -> ->]. done.
Qed.

Lemma objects_kept_refl (s : State) : objects_kept s s.
Proof.
  unfold objects_kept. split_and!; try done.
  intros l n Hn. exists n. split; [done | apply up_to_run_refl].
Qed.

Lemma objects_kept_trans (s1 s2 s3 : State) :
  objects_kept s1 s2 -> objects_kept s2 s3 -> objects_kept s1 s3.
Proof.
  unfold objects_kept.
  intros (?&?&?&?&?&?&?&Hn12) (?&?&?&?&?&?&?&Hn23).
  split_and!; try by etrans.
  intros l n Hn. destruct (Hn12 _ _ Hn) as (n2 & Hn2 & Hup2).
  destruct (Hn23 _ _ Hn2) as (n3 & Hn3 & Hup3).
  exists n3. split; [done | by eapply up_to_run_trans].
Qed.

Lemma objects_kept_heap (s s' : State) : heap s' = heap s -> objects_kept s s'.
Proof.
  intros Hheap. unfold objects_kept. rewrite Hheap. apply objects_kept_refl.
Qed.

Lemma updateCurrent_kept (s : State) u s' :
  updateCurrent s = Ok (u, s') -> objects_kept s s'.
Proof.
  intros (cur & newOpinion & nm & ve & s1 & Hcur & Hform & Hadopt)%updateCurrent_Ok.
  pose proof (formOpinion_grows _ _ _ _ _ Hform)
    as (Hchain & _ & _ & Hb & Hp & Hq & Hc & Hpr & Hnodes & Hm & Ha).
  apply adoptSuccessor_frame in Hadopt. simpl in Hadopt.
  destruct Hadopt as (_ & Hchain' & Hb' & Hp' & Hq' & Hc' & Hpr' & Ha' & Hm'
                      & Hother & Hadopted).
  rewrite Hnodes in Hother, Hadopted.
  unfold objects_kept. rewrite Hb', Hp', Hq', Hc', Hpr', Ha', Hb, Hp, Hq, Hc, Hpr.
  split_and!; try done; [by etrans|].
  intros l n Hn. destruct (decide (l = knownValidNode (chain s'))) as [->|Hne].
  - by apply Hadopted.
  - exists n. rewrite Hother by done. split; [done | apply up_to_run_refl].
Qed.

Lemma catchUp_kept fuel (s : State) b s' :
  catchUp fuel s = Ok (b, s') ->
  objects_kept s s' /\ (s' = s \/ preparedAssertions (locals s') = ∅).
Proof.
  revert s. induction fuel as [|fuel IH]; intros s Hrun; simpl in Hrun;
    invert_run.
  - destruct (IsLeaf _ _); invert_run; auto using objects_kept_refl.
  - destruct (IsLeaf _ _); invert_run; [auto using objects_kept_refl|].
    match goal with
    | H : updateCurrent _ = Ok _ |- _ =>
        pose proof (updateCurrent_kept _ _ _ H) as Hkept;
        apply updateCurrent_Ok in H;
        destruct H as (cur & no & nm & ve & s1 & _ & Hform & Hadopt)
    end.
    apply adoptSuccessor_frame in Hadopt. destruct Hadopt as (Hlocals & _).
    simpl in Hlocals.
    apply IH in Hrun. destruct Hrun as [Hkept' Hcache]. split.
    + by eapply objects_kept_trans.
    + right. destruct Hcache as [->|?]; [|done]. by rewrite Hlocals.
Qed.

Lemma Clone_kept pa (s : State) c s' :
  Clone pa s = Ok (c, s') -> objects_kept s s' /\ locals s' = locals s.
Proof.
  intros (p & v & b & q & cl & _ & _ & _ & _ & _ & -> & Hheap & _ & Hl & _)%Clone_Ok.
  split; [|done]. unfold objects_kept. rewrite Hheap. simpl.
  split_and!; try done; try apply insert_subseteq, fresh_cell.
  intros l n Hn. exists n. split; [done | apply up_to_run_refl].
Qed.

Lemma notifyPrepared_kept pa ls (s : State) u s' :
  notifyPrepared pa ls s = Ok (u, s') ->
  objects_kept s s' /\ locals s' = locals s.
Proof.
  revert s. induction ls as [|l ls IH]; intros s Hrun; simpl in Hrun.
  - invert_run. auto using objects_kept_refl.
  - apply bind_Ok in Hrun. destruct Hrun as (c & s1 & Hclone & Hrun).
    apply Clone_kept in Hclone. destruct Hclone as [Hkept Hlocals].
    invert_run. apply IH in Hrun. destruct Hrun as [Hkept' Hlocals'].
    split.
    + eapply objects_kept_trans; [exact Hkept|]. exact Hkept'.
    + rewrite Hlocals'. simpl. exact Hlocals.
Qed.

Lemma prepareNext_kept (s : State) u s' :
  prepareNext s = Ok (u, s') ->
  objects_kept s s' /\
  preparedAssertions (locals s') = preparedAssertions (locals s).
Proof.
  unfold prepareNext. intros Hrun. invert_run.
  destruct (preparingAssertions _ !! _); invert_run.
  - destruct (preparedAssertions _ !! _) as [pa|]; invert_run;
      [|auto using objects_kept_refl].
    destruct (IsLeaf _ _); invert_run; [|auto using objects_kept_refl].
    apply notifyPrepared_kept in Hrun. destruct Hrun as [? ->]. done.
  - destruct (IsMachineBlocked _ _ _); simpl in Hrun; invert_run;
      (split; [by apply objects_kept_heap | done]).
Qed.

Lemma receiveCase_inv (s : State) u s' :
  receiveCase s = Ok (u, s') ->
  heap s' = heap s /\
  (preparedAssertions (locals s') = preparedAssertions (locals s) \/
   exists l pa,
     prepared (heap s) !! l = Some pa /\
     preparedAssertions (locals s')
     = <[leafHash pa := l]> (preparedAssertions (locals s))).
Proof.
  unfold receiveCase. intros Hrun. invert_run.
  destruct (assertionPreparedChan _) as [|[l|] rest]; invert_run;
    simplify_eq; auto.
  split; [done|]. right. simpl in *. eauto.
Qed.

Lemma prepareAssertion_kept (s : State) r s' :
  prepareAssertion s = Ok (r, s') ->
  objects_kept s s' /\ locals s' = locals s.
Proof.
  unfold prepareAssertion. intros Hrun. invert_run.
  assert (Hnodes : forall (t : State), nodes (heap t) = nodes (heap s) ->
            forall l n, nodes (heap s) !! l = Some n ->
              exists n', nodes (heap t) !! l = Some n' /\ up_to_run n n').
  { intros t -> l n Hn. exists n. split; [done | apply up_to_run_refl]. }
  destruct (IsLeaf _ _); simpl in Hrun.
  - invert_run. simpl in *. inserted_cells.
    match goal with
    | H : (let '(_, _) := ?pc in _) _ = Ok _ |- _ => destruct pc
    end.
    match goal with
    | H : (if DidInboxInsn ?a then _ else _) _ = Ok _ |- _ =>
        destruct (DidInboxInsn a) eqn:Hinbox
    end; invert_run; simpl in *; simplify_eq;
      (split; [|done]; unfold objects_kept; simpl;
       split_and!; [grown..|by apply Hnodes]).
  - invert_run. split; [|done]. unfold objects_kept; simpl.
    split_and!; [grown..|by apply Hnodes].
Qed.

Lemma thread_step_kept (s s' : State) : thread_step s s' -> objects_kept s s'.
Proof.
  intros [[| |] fuel b Hrun|Hrun]; simpl in Hrun.
  - invert_run. apply objects_kept_refl.
  - invert_run.
    match goal with
    | H : receiveCase _ = Ok _ |- _ => apply receiveCase_inv in H as [Hheap _]
    end.
    by apply objects_kept_heap.
  - unfold tickerCase in Hrun. apply bind_Ok in Hrun.
    destruct Hrun as (caughtUp & s1 & [Hkept _]%catchUp_kept & Hrun).
    destruct caughtUp; invert_run; [|done].
    match goal with
    | H : prepareNext _ = Ok _ |- _ => apply prepareNext_kept in H as [Hkept' _]
    end.
    by eapply objects_kept_trans.
  - unfold buildGoroutine in Hrun. invert_run.
    match goal with
    | H : prepareAssertion _ = Ok _ |- _ =>
        apply prepareAssertion_kept in H as [Hkept _]
    end.
    destruct Hkept as (?&?&?&?&?&?&?&?). unfold objects_kept. simpl.
    by split_and!.
Qed.

Lemma cache_sound_kept (s s' : State) :
  objects_kept s s' ->
  preparedAssertions (locals s') = preparedAssertions (locals s) ->
  cache_sound s -> cache_sound s'.
Proof.
  intros (_&_&_&_&_&_&Hprep&_) Hcache Hsound h l Hl. rewrite Hcache in Hl.
  destruct (Hsound _ _ Hl) as (pa & Hpa & Hhash).
  exists pa. split; [|done]. by eapply lookup_weaken.
Qed.

Lemma cache_sound_empty (s : State) :
  preparedAssertions (locals s) = ∅ -> cache_sound s.
Proof. intros Hempty h l. by rewrite Hempty, lookup_empty. Qed.

Lemma thread_step_cache (s s' : State) :
  thread_step s s' -> cache_sound s -> cache_sound s'.
Proof.
  intros [[| |] fuel b Hrun|Hrun] Hsound; simpl in Hrun.
  - by invert_run.
  - invert_run.
    match goal with
    | H : receiveCase _ = Ok _ |- _ =>
        apply receiveCase_inv in H as [Hheap [Hsame|(l & pa & Hpa & Hcache)]]
    end.
    + eapply cache_sound_kept; [by apply objects_kept_heap | done | done].
    + intros h l' Hl'. rewrite Hcache in Hl'. rewrite Hheap.
      destruct (decide (leafHash pa = h)) as [<-|Hne].
      * rewrite lookup_insert_eq in Hl'. injection Hl' as <-. eauto.
      * rewrite lookup_insert_ne in Hl' by done. by apply Hsound.
  - unfold tickerCase in Hrun. apply bind_Ok in Hrun.
    destruct Hrun as (caughtUp & s1 & [Hkept Hcache]%catchUp_kept & Hrun).
    assert (Hsound1 : cache_sound s1).
    { destruct Hcache as [->|Hempty]; [done | by apply cache_sound_empty]. }
    destruct caughtUp; invert_run; [|done].
    match goal with
    | H : prepareNext _ = Ok _ |- _ =>
        apply prepareNext_kept in H as [Hkept' Hsame]
    end.
    by eapply cache_sound_kept.
  - pose proof (thread_step_kept s s' (build_step _ _ Hrun)) as Hkept.
    eapply cache_sound_kept; [exact Hkept | | exact Hsound].
    unfold buildGoroutine in Hrun. invert_run.
    match goal with
    | H : prepareAssertion _ = Ok _ |- _ =>
        apply prepareAssertion_kept in H as [_ Hlocals]
    end.
    simpl. by rewrite Hlocals.
Qed.

(** X14.  Objects are written once.  Over any sequence of steps of the
    thread (turns of the loop, taking any case of the [select], and runs of
    build goroutines), every machine, assertion, prepared assertion, copy
    of a deadline or VM state, parameters and claim that is there at the
    start is there at the end with the contents it had: although
    [getNodeOpinion] and [prepareAssertion] run machines, they are only
    given copies made for the run.  Nodes stay at their addresses, and of
    a node only the fields [machine] and [assertion] are ever assigned. *)
Theorem thread_keeps_objects (s s' : State) :
  rtc thread_step s s' -> objects_kept s s'.
Proof.
  induction 1 as [s|s1 s2 s3 Hstep _ IH].
  - apply objects_kept_refl.
  - eapply objects_kept_trans; [|exact IH]. by apply thread_step_kept.
Qed.

(** X15.  The cache stays sound.  Over any sequence of steps of the thread,
    if every entry of [preparedAssertions] leads to a prepared assertion
    that is there and holds the key of the entry as its [leafHash], this is
    so at the end; it is so at the end of every sequence that starts with
    the cache empty, as the thread makes it (line 66).  So what the lookups
    under the hash of the known-valid node find (lines 84 and 165) is a
    prepared assertion whose [leafHash] is that hash. *)
Theorem thread_keeps_cache_sound (s s' : State) :
  rtc thread_step s s' ->
  (cache_sound s -> cache_sound s') /\
  (preparedAssertions (locals s) = ∅ -> cache_sound s').
Proof.
  intros Hrun.
  assert (Hinv : cache_sound s -> cache_sound s').
  { induction Hrun as [s|s1 s2 s3 Hstep _ IH]; [done|].
    intros Hsound. by apply IH, (thread_step_cache s1). }
  split; [done|]. intros Hempty. by apply Hinv, cache_sound_empty.
Qed.

End Properties.

(** * Concrete runs *)

(** C9, as stated, fails: a second invocation with the same seven
    arguments, the machine being the same object, finds the machine where
    the first one left it and classifies differently. *)
Lemma getNodeOpinion_not_pure :
  exists l s1 s2,
    getNodeOpinion (H := countdown) threeSteps threeStepsClaim 5 (Some 5%Z)
      0%N 0%N 1%positive oneMachine
    = Ok ((ValidChildType, Some l), s1) /\
    getNodeOpinion (H := countdown) threeSteps threeStepsClaim 5 (Some 5%Z)
      0%N 0%N 1%positive s1
    = Ok ((InvalidExecutionChildType, None), s2) /\
    machines (heap oneMachine) !! 1%positive = Some 3%N /\
    machines (heap s1) !! 1%positive = Some 0%N.
Proof.
  eexists _, _, _. split; [vm_compute; reflexivity|].
  split; [vm_compute; reflexivity|]. split; vm_compute; reflexivity.
Qed.

(** C5, as stated, fails: a write through the [machine] pointer of the
    clone changes what the original holds. *)
Lemma Clone_shares_machine :
  exists c s',
    Clone (H := countdown) 1%positive onePrepared = Ok (c, s') /\
    c <> 1%positive /\
    let w := WriteMachine (H := countdown) 1%positive 9%N in
    mutates (heap s') c w /\
    valueOf (write w (heap s')) 1%positive <> valueOf (heap s') 1%positive.
Proof.
  eexists _, _. split; [vm_compute; reflexivity|].
  split; [done|]. split; [vm_compute; reflexivity|].
  vm_compute. intros [=].
Qed.

Lemma Clone_independent_witness :
  exists c s',
    Clone (H := countdown) 1%positive onePrepared = Ok (c, s') /\
    valueOf (heap s') c = valueOf (heap onePrepared) 1%positive.
Proof.
  eexists _, _. split; [vm_compute; reflexivity|].
  refine (proj1 (Clone_independent (H := countdown) _ _ _ _ _)).
  vm_compute. reflexivity.
Defined.

Lemma getNodeOpinion_deterministic_witness :
  outcome (getNodeOpinion (H := countdown) threeSteps threeStepsClaim 5
             (Some 5%Z) 0%N 0%N 1%positive oneMachine)
  = outcome (getNodeOpinion (H := countdown) threeSteps threeStepsClaim 5
               (Some 5%Z) 0%N 0%N 1%positive oneMachineAmongOthers).
Proof.
  refine (proj1 (getNodeOpinion_deterministic (H := countdown) _ _ _ _ _ _ _ _
                   oneMachine oneMachineAmongOthers _)).
  vm_compute. reflexivity.
Defined.

(** C7, as stated, fails: B is posted as valid, this validator classifies
    it "invalid message set", and no node is posted in that slot.
    [updateCurrent] returns, the pointer stays on A, and five rounds of the
    catch-up loop later the loop is still going. *)
Lemma updateCurrent_missing_successor_not_fatal :
  exists s' s'',
    updateCurrent (H := countdown) postedWrongSlice = Ok (tt, s') /\
    knownValidNode (chain s') = knownValidNode (chain postedWrongSlice) /\
    catchUp (H := countdown) 5 postedWrongSlice = Ok (false, s'') /\
    knownValidNode (chain s'') = knownValidNode (chain postedWrongSlice).
Proof.
  eexists _, _. split; [vm_compute; reflexivity|].
  split; [vm_compute; reflexivity|].
  split; vm_compute; reflexivity.
Qed.

(** C6, as stated, fails.  The ticker starts a build for leaf A and the
    build puts its result in the channel; B is posted, and the next turn
    of the ticker moves the known-valid pointer from A to B; the result
    for A is then received, and it is stored in the cache under the hash
    of A. *)
Lemma superseded_result_is_cached :
  exists (s1 s2 s3 s4 : @State countdown) p,
    tickerCase (H := countdown) 3 leafOnly = Ok (true, s1) /\
    buildGoroutine (H := countdown) s1 = Ok (tt, s2) /\
    assertionPreparedChan (locals s2) = [Some p] /\
    leafHash <$> prepared (heap s2) !! p = Some 10%N /\
    tickerCase (H := countdown) 3 (postB s2) = Ok (true, s3) /\
    hash (H := countdown) <$> nodes (heap s3) !! knownValidNode (chain s3)
    = Some 20%N /\
    receiveCase (H := countdown) s3 = Ok (tt, s4) /\
    preparedAssertions (locals s4) !! 10%N = Some p.
Proof.
  eexists _, _, _, _, _.
  split; [vm_compute; reflexivity|].
  split; [vm_compute; reflexivity|].
  split; [vm_compute; reflexivity|].
  split; [vm_compute; reflexivity|].
  split; [vm_compute; reflexivity|].
  split; [vm_compute; reflexivity|].
  split; vm_compute; reflexivity.
Qed.

(** ** The theorems at concrete inputs *)

Lemma getNodeOpinion_first_violation_witness :
  getNodeOpinion (H := countdown) threeSteps threeStepsClaim 5 (Some 8%Z)
    1%N 0%N 1%positive oneMachine
  = Ok ((InvalidPendingChildType, None), oneMachine).
Proof.
  assert (Hheight : height_violated threeSteps 5 (Some 8%Z)).
  { right. exists 8%Z. split; [reflexivity | simpl; lia]. }
  assert (Hmessages : messages_violated (H := countdown) threeStepsClaim 1%N).
  { unfold messages_violated. simpl. lia. }
  destruct (getNodeOpinion_first_violation (H := countdown)
              threeSteps threeStepsClaim 5 (Some 8%Z) 1%N 0%N 1%positive
              oneMachine 3%N) as [Hfirst _].
  - vm_compute. reflexivity.
  - left. split; assumption.
  - apply Hfirst. assumption.
Defined.

Lemma getNodeOpinion_execution_check_witness :
  exists assertion,
    outcome (getNodeOpinion (H := countdown) threeSteps threeStepsClaim 5
               (Some 5%Z) 0%N 0%N 1%positive oneMachine)
    = Some (ValidChildType, Some assertion) /\
    Stub assertion = ClaimAssertionStub threeStepsClaim.
Proof.
  destruct (getNodeOpinion_execution_check (H := countdown)
              threeSteps threeStepsClaim 5 (Some 5%Z) 0%N 0%N 1%positive
              oneMachine 3%N 0%N (3%N, false) 3%N) as (_ & _ & Hvalid).
  - intros [Hnone | (h & Hsome & Hne)]; [discriminate|].
    injection Hsome as <-. simpl in Hne. lia.
  - unfold messages_violated. simpl. lia.
  - vm_compute. reflexivity.
  - vm_compute. reflexivity.
  - apply Hvalid; reflexivity.
Defined.

Lemma prepareAssertion_result_witness :
  exists p s' pa,
    prepareAssertion (H := countdown) leafOnly = Ok (Some p, s') /\
    prepared (heap s') !! p = Some pa /\ leafHash pa = 10%N.
Proof.
  eexists _, _, _. split; [vm_compute; reflexivity|].
  edestruct (prepareAssertion_result (H := countdown) leafOnly)
    as (leaf & mach & m & m' & a & stepsRun & pa & q & cl & _).
  - vm_compute. reflexivity.
  - vm_compute. split; reflexivity.
Defined.

Lemma postedValid_keys_consistent : keys_consistent postedValid.
Proof.
  intros h l n Hh Hl. simpl in Hh, Hl.
  apply lookup_insert_Some in Hh as [[<- <-] | [_ Hh]].
  - rewrite lookup_insert_eq in Hl. by injection Hl as <-.
  - apply lookup_singleton_Some in Hh as [<- <-].
    rewrite lookup_insert_ne, lookup_singleton_eq in Hl by done.
    by injection Hl as <-.
Defined.

Lemma updateCurrent_moves_to_successor_witness :
  exists (s' : @State countdown) cur,
    updateCurrent (H := countdown) postedValid = Ok (tt, s') /\
    knownValidNode (chain s') = 2%positive /\
    nodes (heap postedValid) !! knownValidNode (chain postedValid) = Some cur.
Proof.
  eexists _, _. split; [vm_compute; reflexivity|].
  split; [vm_compute; reflexivity|].
  edestruct (updateCurrent_moves_to_successor (H := countdown) postedValid)
    as (cur & slot & Hcur & _).
  - exact postedValid_keys_consistent.
  - vm_compute. reflexivity.
  - vm_compute. reflexivity.
Defined.

Lemma updateCurrent_lookup_fails_witness :
  exists s',
    updateCurrent (H := countdown) postedWrongSlice = Ok (tt, s') /\
    chain s' = chain postedWrongSlice.
Proof.
  edestruct (updateCurrent_lookup_fails (H := countdown) postedWrongSlice)
    as (s' & Hrun & _ & Hchain & _).
  - vm_compute. reflexivity.
  - vm_compute. reflexivity.
  - vm_compute. reflexivity.
  - exists s'. split; assumption.
Defined.

Lemma updateCurrent_missing_successor_retried_witness :
  exists s',
    updateCurrent (H := countdown) postedWrongSlice = Ok (tt, s') /\
    catchUp (H := countdown) 1 postedWrongSlice = catchUp 0 s'.
Proof.
  edestruct (updateCurrent_missing_successor_retried (H := countdown)
               postedWrongSlice)
    as (s' & Hrun & _ & _ & _ & Hloop).
  - vm_compute. reflexivity.
  - vm_compute. reflexivity.
  - vm_compute. reflexivity.
  - vm_compute. reflexivity.
  - exists s'. split; [assumption | apply Hloop].
Defined.

Lemma stale_result_stored_not_surfaced_witness :
  exists s',
    receiveCase (H := countdown) resultWaiting = Ok (tt, s') /\
    preparedAssertions (locals s') !! 7%N = Some 1%positive /\
    events s' = events resultWaiting.
Proof.
  edestruct (proj1 (stale_result_stored_not_surfaced (H := countdown))
               resultWaiting)
    as (s' & Hrun & Hcache & Hevents & _).
  - vm_compute. reflexivity.
  - vm_compute. reflexivity.
  - exists s'. split; [assumption|]. split; [|assumption].
    rewrite Hcache. apply lookup_insert_eq.
Defined.

(** ** The further properties at concrete inputs *)

Lemma getNodeOpinion_classification_witness :
  exists l s',
    getNodeOpinion (H := countdown) threeSteps threeStepsClaim 5 (Some 5%Z)
      0%N 0%N 1%positive oneMachine
    = Ok ((ValidChildType, Some l), s') /\
    machines (heap s') !! 1%positive = Some 0%N.
Proof.
  eexists _, _. split; [vm_compute; reflexivity|].
  edestruct (getNodeOpinion_classification (H := countdown)
               threeSteps threeStepsClaim 5 (Some 5%Z) 0%N 0%N 1%positive
               oneMachine)
    as (_ & _ & _ & _ & Hrun).
  - vm_compute. reflexivity.
  - vm_compute. reflexivity.
Defined.

Lemma updateCurrent_resets_caches_witness :
  exists s',
    updateCurrent (H := countdown) builtThenPosted = Ok (tt, s') /\
    preparedAssertions (locals builtThenPosted) !! 10%N = Some 1%positive /\
    preparedAssertions (locals s') = ∅.
Proof.
  eexists. split; [vm_compute; reflexivity|].
  split; [vm_compute; reflexivity|].
  edestruct (updateCurrent_resets_caches (H := countdown) builtThenPosted)
    as (_ & Hcache & _).
  - vm_compute. reflexivity.
  - exact Hcache.
Defined.

Lemma updateCurrent_writes_only_adopted_node_witness :
  exists s',
    updateCurrent (H := countdown) postedValid = Ok (tt, s') /\
    nodes (heap s') !! 1%positive = Some nodeA /\
    prepared (heap s') = prepared (heap postedValid).
Proof.
  eexists. split; [vm_compute; reflexivity|].
  edestruct (updateCurrent_writes_only_adopted_node (H := countdown)
               postedValid)
    as (_ & _ & _ & _ & _ & _ & _ & Hprepared & Hother & _).
  - vm_compute. reflexivity.
  - split; [|exact Hprepared].
    rewrite Hother; [reflexivity | vm_compute; discriminate].
Defined.

Lemma updateCurrent_adopts_cached_witness :
  exists s',
    updateCurrent (H := countdown) builtThenPosted = Ok (tt, s') /\
    knownValidNode (chain s') = 2%positive /\
    machines (heap s') = machines (heap builtThenPosted).
Proof.
  edestruct (updateCurrent_adopts_cached (H := countdown) builtThenPosted)
    as (s' & Hrun & Hknown & _ & Hmachines & _).
  - vm_compute. reflexivity.
  - vm_compute. reflexivity.
  - vm_compute. reflexivity.
  - vm_compute. reflexivity.
  - vm_compute. reflexivity.
  - vm_compute. reflexivity.
  - vm_compute. reflexivity.
  - vm_compute. reflexivity.
  - vm_compute. reflexivity.
  - vm_compute. reflexivity.
  - exists s'. split; [exact Hrun|]. split; [exact Hknown | exact Hmachines].
Defined.

Lemma updateCurrent_adopts_replayed_witness :
  exists s' c l,
    updateCurrent (H := countdown) postedValid = Ok (tt, s') /\
    nodes (heap s') !! 2%positive
    = Some (with_assertion (Some l) (with_machine (Some c) (nodeB 2%N))) /\
    machines (heap s') !! c = Some 0%N /\
    machines (heap s') !! 1%positive = Some 3%N.
Proof.
  edestruct (updateCurrent_adopts_replayed (H := countdown) postedValid)
    as (s' & c & l & Hrun & _ & Hnode & _ & Hc & Hold & _).
  - vm_compute. reflexivity.
  - vm_compute. reflexivity.
  - vm_compute. reflexivity.
  - vm_compute. reflexivity.
  - vm_compute. reflexivity.
  - vm_compute. reflexivity.
  - vm_compute. reflexivity.
  - intros [Hnone | (h & Hsome & Hne)]; [discriminate|].
    vm_compute in Hsome. injection Hsome as <-. vm_compute in Hne. lia.
  - unfold messages_violated. vm_compute. lia.
  - vm_compute. reflexivity.
  - vm_compute. reflexivity.
  - vm_compute. reflexivity.
  - vm_compute. reflexivity.
  - exists s', c, l. split; [exact Hrun|]. split; [exact Hnode|].
    split; [exact Hc | exact Hold].
Defined.

Lemma updateCurrent_adopts_invalid_witness :
  exists s' c,
    updateCurrent (H := countdown) postedContested = Ok (tt, s') /\
    knownValidNode (chain s') = 3%positive /\
    nodes (heap s') !! 3%positive = Some (with_machine (Some c) nodeC) /\
    machines (heap s') !! c = Some 3%N.
Proof.
  edestruct (updateCurrent_adopts_invalid (H := countdown) postedContested)
    as (s' & c & Hrun & Hknown & Hnode & _ & _ & Hc & _).
  - vm_compute. reflexivity.
  - vm_compute. reflexivity.
  - discriminate.
  - vm_compute. reflexivity.
  - vm_compute. reflexivity.
  - vm_compute. reflexivity.
  - vm_compute. reflexivity.
  - exists s', c. split; [exact Hrun|]. split; [exact Hknown|].
    split; [exact Hnode | exact Hc].
Defined.

Lemma catchUp_walks_forward_witness :
  exists s',
    catchUp (H := countdown) 3 postedValid = Ok (true, s') /\
    same_shape postedValid s'.
Proof.
  eexists. split; [vm_compute; reflexivity|].
  edestruct (catchUp_walks_forward (H := countdown) 3 postedValid)
    as (_ & Hshape & _).
  - exact postedValid_keys_consistent.
  - vm_compute. reflexivity.
  - exact Hshape.
Defined.

Lemma prepareNext_one_build_per_leaf_witness :
  exists s1 s2,
    prepareNext (H := countdown) leafOnly = Ok (tt, s1) /\
    prepareNext (H := countdown) s1 = Ok (tt, s2) /\
    startedBuilds (locals s1) = 1 /\
    startedBuilds (locals s2) = startedBuilds (locals s1).
Proof.
  eexists _, _. split; [vm_compute; reflexivity|].
  split; [vm_compute; reflexivity|].
  split; [vm_compute; reflexivity|].
  edestruct (prepareNext_one_build_per_leaf (H := countdown) leafOnly)
    as (_ & Hbuilds & _).
  - vm_compute. reflexivity.
  - vm_compute. reflexivity.
  - exact Hbuilds.
Defined.

Lemma prepareNext_hands_out_copies_witness :
  exists s' cs,
    prepareNext (H := countdown) builtOnLeaf = Ok (tt, s') /\
    length cs = 2 /\
    events s' = events builtOnLeaf ++ zip_with AssertionPrepared [0; 1] cs /\
    NoDup cs.
Proof.
  edestruct (prepareNext_hands_out_copies (H := countdown) builtOnLeaf)
    as (_ & cs & Hlength & Hevents & Hnodup & _).
  - vm_compute. reflexivity.
  - vm_compute. reflexivity.
  - vm_compute. reflexivity.
  - vm_compute. reflexivity.
  - vm_compute. reflexivity.
  - eexists _, cs. split; [vm_compute; reflexivity|].
    split; [exact Hlength|]. split; [exact Hevents | exact Hnodup].
Defined.

Lemma prepareAssertion_only_allocates_witness :
  exists p s',
    prepareAssertion (H := countdown) leafOnly = Ok (Some p, s') /\
    nodes (heap s') = nodes (heap leafOnly) /\
    machines (heap leafOnly) ⊆ machines (heap s').
Proof.
  eexists _, _. split; [vm_compute; reflexivity|].
  edestruct (prepareAssertion_only_allocates (H := countdown) leafOnly)
    as (_ & _ & _ & Hnodes & _ & _ & _ & _ & _ & Hmachines & _).
  - vm_compute. reflexivity.
  - split; [exact Hnodes | exact Hmachines].
Defined.

Lemma build_result_filed_under_leaf_witness :
  exists p s',
    (buildGoroutine (H := countdown) ;;; receiveCase) leafOnly = Ok (tt, s') /\
    preparedAssertions (locals s') !! 10%N = Some p.
Proof.
  edestruct (build_result_filed_under_leaf (H := countdown) leafOnly)
    as (p & pa & s' & Hrun & _ & _ & Hcache & _).
  - vm_compute. reflexivity.
  - vm_compute. reflexivity.
  - vm_compute. reflexivity.
  - vm_compute. reflexivity.
  - vm_compute. reflexivity.
  - exists p, s'. split; [exact Hrun|]. rewrite Hcache. apply lookup_insert_eq.
Defined.

Lemma build_after_successor_fails_receive_witness :
  (buildGoroutine (H := countdown) ;;; receiveCase) postedValid = Panic.
Proof.
  refine (proj2 (build_after_successor_fails_receive (H := countdown)
                   postedValid nodeA _ _ _)).
  - vm_compute. reflexivity.
  - vm_compute. reflexivity.
  - vm_compute. reflexivity.
Defined.

Lemma catchUp_missing_successor_spins_witness :
  exists s',
    catchUp (H := countdown) 7 postedWrongSlice = Ok (false, s') /\
    knownValidNode (chain s') = knownValidNode (chain postedWrongSlice).
Proof.
  eapply (catchUp_missing_successor_spins (H := countdown) 7 postedWrongSlice).
  - vm_compute. reflexivity.
  - vm_compute. reflexivity.
  - vm_compute. reflexivity.
  - vm_compute. reflexivity.
  - vm_compute. reflexivity.
Defined.

(** A turn of the ticker on leaf A, the build it starts, the receipt of
    the result and the next turn of the ticker. *)
Lemma leafOnly_run : rtc (thread_step (H := countdown)) leafOnly handedOut.
Proof.
  eapply rtc_l; [eapply (turn_step _ _ Ticked 3); vm_compute; reflexivity|].
  eapply rtc_l; [eapply build_step; vm_compute; reflexivity|].
  eapply rtc_l; [eapply (turn_step _ _ Received 0); vm_compute; reflexivity|].
  eapply rtc_l; [eapply (turn_step _ _ Ticked 3); vm_compute; reflexivity|].
  vm_compute. apply rtc_refl.
Defined.

Lemma thread_keeps_objects_witness :
  length (events handedOut) = 2 /\ objects_kept leafOnly handedOut.
Proof.
  split; [vm_compute; reflexivity|].
  exact (thread_keeps_objects (H := countdown) leafOnly handedOut leafOnly_run).
Defined.

Lemma thread_keeps_cache_sound_witness :
  preparedAssertions (locals handedOut) !! 10%N = Some 1%positive /\
  cache_sound handedOut.
Proof.
  split; [vm_compute; reflexivity|].
  apply (proj2 (thread_keeps_cache_sound (H := countdown) leafOnly handedOut
                  leafOnly_run)).
  vm_compute. reflexivity.
Defined.
